(** * CompanySearch: the Companies House proxy of [server.js]

    A shallow embedding of the Express application defined in [server.js]
    and the properties of its request pipeline and route handlers.

    Layout: JavaScript data (strings, values, truthiness), the static
    configuration, the three middlewares in registration order (origin
    callback, rate limiter, shared-secret check), the four route handlers
    and the assembled application; then the vocabulary the specification
    uses and the example inputs; then the properties, each middleware and
    handler taken as the component it is (a request reaches a middleware
    only if the ones registered before it called [next()]). *)

From Stdlib Require Import ZArith String Ascii PrimFloat Lia.
From stdpp Require Import gmap strings list.

#[local] Set Warnings "-register-all".
#[local] Open Scope Z_scope.
#[local] Open Scope string_scope.

(** ** JavaScript strings

    A [string] stands for the JavaScript string whose UTF-16 code units are
    the codes of its characters (so every code unit is below 256 and
    [String.length] is the [.length] property). *)
Module JsString.

(** [!s] for a string: only the empty string is falsy. *)
Definition nonempty (s : string) : bool := negb (String.eqb s "").

Definition lower_char (c : ascii) : ascii :=
  let n := N_of_ascii c in
  if ((65 <=? n) && (n <=? 90))%N then ascii_of_N (n + 32) else c.

Definition upper_char (c : ascii) : ascii :=
  let n := N_of_ascii c in
  if ((97 <=? n) && (n <=? 122))%N then ascii_of_N (n - 32) else c.

Fixpoint map_chars (f : ascii -> ascii) (s : string) : string :=
  match s with
  | EmptyString => EmptyString
  | String c r => String (f c) (map_chars f r)
  end.

(** [String.prototype.toLowerCase] and [toUpperCase] on ASCII strings,
    which is what an HTTP header name is. *)
Definition toLowerCase : string -> string := map_chars lower_char.
Definition toUpperCase : string -> string := map_chars upper_char.

(** [Array.prototype.join] on strings. *)
Fixpoint join (sep : string) (l : list string) : string :=
  match l with
  | [] => ""
  | [s] => s
  | s :: r => s ++ sep ++ join sep r
  end.

Definition hex_digit (n : N) : ascii :=
  if (n <? 10)%N then ascii_of_N (48 + n) else ascii_of_N (55 + n).

(** ["%XX"] for one byte. *)
Definition pct (byte : N) : string :=
  String "%" (String (hex_digit (byte / 16)) (String (hex_digit (byte mod 16)) "")).

(** The characters [encodeURIComponent] leaves alone:
    [A-Z a-z 0-9 - _ . ! ~ * ' ( )]. *)
Definition unreserved (n : N) : bool :=
  ((65 <=? n) && (n <=? 90) || (97 <=? n) && (n <=? 122) || (48 <=? n) && (n <=? 57)
   || (n =? 45) || (n =? 95) || (n =? 46) || (n =? 33) || (n =? 126)
   || (n =? 42) || (n =? 39) || (n =? 40) || (n =? 41))%N.

(** [encodeURIComponent]: every other code unit is written as the
    percent-escaped bytes of its UTF-8 encoding (one byte below 128, two
    bytes from 128 to 255). *)
Fixpoint encodeURIComponent (s : string) : string :=
  match s with
  | EmptyString => EmptyString
  | String c r =>
      let n := N_of_ascii c in
      (if unreserved n then String c ""
       else if (n <? 128)%N then pct n
       else pct (192 + n / 64) ++ pct (128 + n mod 64))
      ++ encodeURIComponent r
  end.

End JsString.

(** ** JavaScript values

    The values [JSON.parse] produces and [res.json] receives; [VUndefined]
    occurs only as the result of reading a property that is not there. An
    object keeps its properties in insertion order. *)
Inductive jsval : Type :=
| VUndefined
| VNull
| VBool (b : bool)
| VNum (x : float)
| VStr (s : string)
| VArr (elems : list jsval)
| VObj (props : list (string * jsval)).

(** Truthiness, as [!v] and [v || w] test it. *)
Definition truthy (v : jsval) : bool :=
  match v with
  | VUndefined | VNull => false
  | VBool b => b
  | VNum x => negb (PrimFloat.eqb x 0%float || PrimFloat.is_nan x)
  | VStr s => JsString.nonempty s
  | VArr _ | VObj _ => true
  end.

(** [a || b]. *)
Definition js_or (a b : jsval) : jsval := if truthy a then a else b.

(** Own property of an object literal or parsed object. *)
Fixpoint own_prop (props : list (string * jsval)) (k : string) : option jsval :=
  match props with
  | [] => None
  | (k', v) :: r => if String.eqb k' k then Some v else own_prop r k
  end.

(** ** Exceptions

    [Ok a] is a normal completion and [Thrown] an exception on its way to
    the enclosing [catch]. *)
Inductive Try (A : Type) : Type :=
| Ok (a : A)
| Thrown.
Arguments Ok {A} a.
Arguments Thrown {A}.

Definition try_bind {A B} (m : Try A) (f : A -> Try B) : Try B :=
  match m with
  | Ok a => f a
  | Thrown => Thrown
  end.

Notation "'let?' x := m 'in' k" := (try_bind m (fun x => k))
  (at level 10, x name, m at level 100, k at level 200).

(** [try { body } catch (e) { handler }]. *)
Definition try_catch {A} (body : Try A) (handler : A) : A :=
  match body with
  | Ok a => a
  | Thrown => handler
  end.

(** [v.k] for the property names the handlers read ([items], [title],
    [company_number], [company_status], [address_snippet], [name],
    [appointed_on], [resigned_on], [officer_role]): none of them is a
    member of a built-in prototype, so the read gives an own property of an
    object, [undefined] on any other value, and a [TypeError] on [null] and
    [undefined]. *)
Definition get_member (v : jsval) (k : string) : Try jsval :=
  match v with
  | VUndefined | VNull => Thrown
  | VObj props => Ok (default VUndefined (own_prop props k))
  | VBool _ | VNum _ | VStr _ | VArr _ => Ok VUndefined
  end.

(** [v.map(f)]: only an array has a callable [map]. *)
Fixpoint map_try {A B} (f : A -> Try B) (l : list A) : Try (list B) :=
  match l with
  | [] => Ok []
  | x :: r => let? y := f x in let? ys := map_try f r in Ok (y :: ys)
  end.

Definition js_map (v : jsval) (f : jsval -> Try jsval) : Try (list jsval) :=
  match v with
  | VArr elems => map_try f elems
  | _ => Thrown
  end.

(** ** Query-string values

    What [req.query.q] holds when the parameter is present: a string, an
    array ([q=a&q=b]) or an object ([q[k]=v]). *)
Inductive qval : Type :=
| QStr (s : string)
| QArr (elems : list qval)
| QObj (props : list (string * qval)).

Definition qtruthy (v : option qval) : bool :=
  match v with
  | None => false
  | Some (QStr s) => JsString.nonempty s
  | Some _ => true
  end.

Definition has_key {A} (props : list (string * A)) (k : string) : bool :=
  existsb (fun p => String.eqb (fst p) k) props.

(** [v.toString()]. A string is itself, an array joins the strings of its
    elements with commas, an object is ["[object Object]"]; an object with
    an own [toString] property (a parsed value, never a function) makes the
    call a [TypeError]. *)
Fixpoint qToString (v : qval) : Try string :=
  match v with
  | QStr s => Ok s
  | QArr elems =>
      let? parts :=
        (fix go (l : list qval) : Try (list string) :=
           match l with
           | [] => Ok []
           | x :: r => let? s := qToString x in let? ss := go r in Ok (s :: ss)
           end) elems in
      Ok (JsString.join "," parts)
  | QObj props =>
      if has_key props "toString" then Thrown else Ok "[object Object]"
  end.

(** [(v || '').toString()]. *)
Definition or_empty_toString (v : option qval) : Try string :=
  match v with
  | Some x => if qtruthy v then qToString x else Ok ""
  | None => Ok ""
  end.

(** ** Static configuration

    The module-level constants read from the environment when the process
    starts: [ORIGINS] is the trimmed, non-empty entries of [CORS_ORIGINS],
    [SHARED_SECRET] is [""] when unset, [AUTH_HEADER] is ["x-ch-secret"]
    when unset, [CH_API_KEY] is [undefined] when unset. *)
Record Config : Type := {
  ORIGINS : list string;
  SHARED_SECRET : string;
  AUTH_HEADER : string;
  CH_API_KEY : option string
}.

Definition CH_BASE : string := "https://api.company-information.service.gov.uk".
Definition WINDOW_MS : Z := 60 * 1000.
Definition MAX_REQS : Z := 60.

(** ** Requests and responses *)

(** The route Express selects for a request that gets past the middlewares,
    in the order the routes are registered. *)
Inductive Route : Type :=
| GetHealth
| GetSearch
| GetOfficers
| GetDetail
| NoRoute.

(** The parts of [req] the application reads. [headers] is [req.headers]
    (own properties, keyed by lower-cased header name, each a string: the
    one header Node keeps as an array, [set-cookie], is not a request
    credential), [query_q] is [req.query.q], [params_number] is
    [req.params.number], and [route] is the route Express matches the
    method and path against. *)
Record Request : Type := {
  ip : option string;
  path : string;
  headers : gmap string string;
  query_q : option qval;
  params_number : option string;
  route : Route
}.

(** A response as the code issues it: the status given to [res.status]
    (200 when it is not called) and the value given to [res.json]. *)
Record Response : Type := {
  status : Z;
  body : jsval
}.

(** [res.json(v)] and [res.status(s).json(v)]. *)
Definition res_json (v : jsval) : Response := {| status := 200; body := v |}.
Definition res_status_json (s : Z) (v : jsval) : Response := {| status := s; body := v |}.

(** What a middleware does with a request: call [next()], call [next(err)],
    or answer it. *)
Inductive Step : Type :=
| Next
| NextError (message : string)
| Respond (r : Response).

(** ** Origin callback of [corsOptions] *)

(** [req.headers.origin], which the [cors] middleware passes to the
    callback. *)
Definition origin_header (req : Request) : option string := headers req !! "origin".

(** [!origin]. *)
Definition origin_falsy (origin : option string) : bool :=
  match origin with
  | None => true
  | Some s => negb (JsString.nonempty s)
  end.

(** [ORIGINS.includes(origin)]. *)
Definition includes (l : list string) (s : string) : bool :=
  existsb (String.eqb s) l.

(** [corsOptions.origin]: [cb(null, true)] is [Next], [cb(new Error(..))]
    is [NextError]. *)
Definition corsOptions_origin (cfg : Config) (origin : option string) : Step :=
  if origin_falsy origin
     || (Z.of_nat (length (ORIGINS cfg)) =? 0)%Z
     || includes (ORIGINS cfg) (default "" origin)
  then Next
  else NextError ("Not allowed by CORS: " ++ default "" origin).

(** ** Rate limiter *)

(** An entry of the [hits] map. [count] stays far below 2^53, where the
    increment of a JavaScript number is exact. *)
Record Entry : Type := {
  count : Z;
  ts : Z
}.

Definition rate_limited : Response :=
  res_status_json 429 (VObj [("error", VStr "Rate limit exceeded")]).

(** The second [app.use]: [now] is the value of [Date.now()] and the map is
    [hits], keyed by [req.ip]. *)
Definition rate_limit (now : Z) (key : option string)
    (hits : gmap (option string) Entry) : gmap (option string) Entry * Step :=
  let entry := default {| count := 0; ts := now |} (hits !! key) in
  let entry := if (now - ts entry >? WINDOW_MS)%Z
               then {| count := 0; ts := now |} else entry in
  let entry := {| count := count entry + 1; ts := ts entry |} in
  let hits := <[key := entry]> hits in
  if (count entry >? MAX_REQS)%Z then (hits, Respond rate_limited) else (hits, Next).

(** ** Shared-secret check *)

(** The names every object inherits from [Object.prototype]. *)
Definition object_prototype_names : list string :=
  [ "constructor"; "__defineGetter__"; "__defineSetter__"; "hasOwnProperty";
    "__lookupGetter__"; "__lookupSetter__"; "isPrototypeOf";
    "propertyIsEnumerable"; "toString"; "valueOf"; "__proto__";
    "toLocaleString" ].

(** The result of [req.headers[name]]: an own property is the header's
    value; a name inherited from [Object.prototype] gives a function or an
    object, which is truthy and is no string. *)
Inductive HeaderValue : Type :=
| HUndefined
| HString (s : string)
| HInherited.

Definition header_get (h : gmap string string) (name : string) : HeaderValue :=
  match h !! name with
  | Some v => HString v
  | None => if includes object_prototype_names name then HInherited else HUndefined
  end.

Definition header_truthy (v : HeaderValue) : bool :=
  match v with
  | HUndefined => false
  | HString s => JsString.nonempty s
  | HInherited => true
  end.

Definition header_or (a b : HeaderValue) : HeaderValue :=
  if header_truthy a then a else b.

(** [token !== SHARED_SECRET]. *)
Definition header_differs (v : HeaderValue) (secret : string) : bool :=
  match v with
  | HString s => negb (String.eqb s secret)
  | HUndefined | HInherited => true
  end.

(** The [token] constant of the middleware. *)
Definition auth_token (cfg : Config) (req : Request) : HeaderValue :=
  header_or (header_get (headers req) (AUTH_HEADER cfg))
    (header_or (header_get (headers req) (JsString.toLowerCase (AUTH_HEADER cfg)))
       (header_get (headers req) (JsString.toUpperCase (AUTH_HEADER cfg)))).

Definition not_configured : Response :=
  res_status_json 500
    (VObj [("error", VStr "Server not configured (missing SHARED_SECRET)")]).

Definition unauthorised : Response :=
  res_status_json 401 (VObj [("error", VStr "Unauthorised")]).

(** The third [app.use]. *)
Definition auth (cfg : Config) (req : Request) : Step :=
  if String.eqb (path req) "/health" then Next
  else if negb (JsString.nonempty (SHARED_SECRET cfg)) then Respond not_configured
  else
    let token := auth_token cfg req in
    if negb (header_truthy token) || header_differs token (SHARED_SECRET cfg)
    then Respond unauthorised
    else Next.

(** ** The upstream call

    What the handler passes to [fetch]: the URL, and the credentials whose
    base64 form follows ["Basic "] in the [Authorization] header. *)
Record Outbound : Type := {
  url : string;
  basic_credentials : string
}.

(** [CH_API_KEY + ':'], where an unset key concatenates as ["undefined"]. *)
Definition credentials (cfg : Config) : string :=
  default "undefined" (CH_API_KEY cfg) ++ ":".

(** The body of an upstream response: reading it fails ([BodyBroken]: the
    connection breaks before the body is complete), or it is [text], and
    [parsed] is what [JSON.parse] makes of that text, [None] when it
    throws. *)
Inductive UpstreamBody : Type :=
| BodyBroken
| BodyText (text : string) (parsed : option jsval).

(** How the promise returned by [fetch] settles: rejected (network error),
    or resolved with a response [r] of status [r.status]. *)
Inductive FetchResult : Type :=
| FetchRejected
| FetchResolved (upstream_status : Z) (b : UpstreamBody).

(** [await fetch(..)]. *)
Definition await_fetch (r : FetchResult) : Try (Z * UpstreamBody) :=
  match r with
  | FetchRejected => Thrown
  | FetchResolved s b => Ok (s, b)
  end.

(** [r.ok]: the status is in the range 200 to 299. *)
Definition r_ok (s : Z) : bool := ((200 <=? s) && (s <=? 299))%Z.

(** [await r.text()]. *)
Definition r_text (b : UpstreamBody) : Try string :=
  match b with
  | BodyBroken => Thrown
  | BodyText text _ => Ok text
  end.

(** [await r.json()]. *)
Definition r_json (b : UpstreamBody) : Try jsval :=
  match b with
  | BodyBroken => Thrown
  | BodyText _ None => Thrown
  | BodyText _ (Some data) => Ok data
  end.

(** A route handler as a program over the upstream: it answers, or calls
    [fetch] and goes on with the result, or lets an exception escape (no
    response is sent by the application's code). *)
Inductive Handler : Type :=
| Reply (r : Response)
| Fetch (o : Outbound) (k : FetchResult -> Handler)
| Uncaught.

(** Running a handler against an upstream: the outbound calls made, in
    order, and the response. *)
Fixpoint run (upstream : Outbound -> FetchResult) (h : Handler)
    : list Outbound * option Response :=
  match h with
  | Reply r => ([], Some r)
  | Fetch o k => let (calls, r) := run upstream (k (upstream o)) in (o :: calls, r)
  | Uncaught => ([], None)
  end.

(** ** Route handlers *)

Definition ch_error (s : Z) (text : string) : Response :=
  res_status_json s (VObj [("error", VStr "CH error"); ("detail", VStr text)]).

Definition no_items : jsval := VObj [("items", VArr [])].

(** [GET /health]. *)
Definition health : Handler := Reply (res_json (VObj [("ok", VBool true)])).

(** The arrow function mapped over the search items. *)
Definition search_item (x : jsval) : Try jsval :=
  let? title := get_member x "title" in
  let? company_number := get_member x "company_number" in
  let? company_status := get_member x "company_status" in
  let? address_snippet := get_member x "address_snippet" in
  Ok (VObj [("title", title); ("company_number", company_number);
            ("company_status", company_status); ("address_snippet", address_snippet)]).

(** The [try] block of the search handler, from the settled [fetch] on. *)
Definition search_try (r : FetchResult) : Try Response :=
  let? resp := await_fetch r in
  if negb (r_ok (fst resp)) then
    let? text := r_text (snd resp) in
    Ok (ch_error (fst resp) text)
  else
    let? data := r_json (snd resp) in
    let? data_items := get_member data "items" in
    let? items := js_map (js_or data_items (VArr [])) search_item in
    Ok (res_json (VObj [("items", VArr items)])).

(** The request the search handler sends upstream. *)
Definition search_call (cfg : Config) (q : string) : Outbound :=
  {| url := CH_BASE ++ "/search/companies?q="
            ++ JsString.encodeURIComponent q ++ "&items_per_page=20";
     basic_credentials := credentials cfg |}.

(** [GET /companies-house/search]. *)
Definition search (cfg : Config) (req : Request) : Handler :=
  match or_empty_toString (query_q req) with
  | Thrown => Uncaught
  | Ok q =>
      if negb (JsString.nonempty q) || (Z.of_nat (String.length q) <? 3)%Z
      then Reply (res_json no_items)
      else
        Fetch (search_call cfg q)
          (fun r => Reply (try_catch (search_try r) (res_status_json 500 no_items)))
  end.

(** [(req.params.number || '').toString()]: a route parameter is a string
    or [undefined]. (Express matches [:number] against a non-empty path
    segment; the handlers still guard against an empty one.) *)
Definition number_param (req : Request) : string :=
  match params_number req with
  | Some s => if JsString.nonempty s then s else ""
  | None => ""
  end.

(** The arrow function mapped over the officer items. *)
Definition officer_item (o : jsval) : Try jsval :=
  let? name := get_member o "name" in
  let? appointed_on := get_member o "appointed_on" in
  let? resigned_on := get_member o "resigned_on" in
  let? role := get_member o "officer_role" in
  Ok (VObj [("name", name); ("appointed_on", appointed_on);
            ("resigned_on", resigned_on); ("role", role)]).

Definition officers_try (r : FetchResult) : Try Response :=
  let? resp := await_fetch r in
  if negb (r_ok (fst resp)) then
    let? text := r_text (snd resp) in
    Ok (ch_error (fst resp) text)
  else
    let? data := r_json (snd resp) in
    let? data_items := get_member data "items" in
    let? items := js_map (js_or data_items (VArr [])) officer_item in
    Ok (res_json (VObj [("items", VArr items)])).

Definition officers_call (cfg : Config) (number : string) : Outbound :=
  {| url := CH_BASE ++ "/company/" ++ JsString.encodeURIComponent number
            ++ "/officers?items_per_page=50";
     basic_credentials := credentials cfg |}.

(** [GET /companies-house/:number/officers]. *)
Definition officers (cfg : Config) (req : Request) : Handler :=
  let number := number_param req in
  if negb (JsString.nonempty number) then Reply (res_json no_items)
  else
    Fetch (officers_call cfg number)
      (fun r => Reply (try_catch (officers_try r) (res_status_json 500 no_items))).

Definition no_company_number : Response :=
  res_status_json 400 (VObj [("error", VStr "No company number")]).

Definition details_failed : Response :=
  res_status_json 500 (VObj [("error", VStr "Failed to fetch company details")]).

Definition detail_try (r : FetchResult) : Try Response :=
  let? resp := await_fetch r in
  if negb (r_ok (fst resp)) then
    let? text := r_text (snd resp) in
    Ok (ch_error (fst resp) text)
  else
    let? data := r_json (snd resp) in
    Ok (res_json data).

Definition detail_call (cfg : Config) (number : string) : Outbound :=
  {| url := CH_BASE ++ "/company/" ++ JsString.encodeURIComponent number;
     basic_credentials := credentials cfg |}.

(** [GET /companies-house/:number]. *)
Definition detail (cfg : Config) (req : Request) : Handler :=
  let number := number_param req in
  if negb (JsString.nonempty number) then Reply no_company_number
  else
    Fetch (detail_call cfg number)
      (fun r => Reply (try_catch (detail_try r) details_failed)).

(** ** The application *)

(** What becomes of a request: Express's error handling takes over
    ([next(err)]), a handler of the application runs, or no route of the
    application matches. *)
Inductive Outcome : Type :=
| Errored (message : string)
| Handled (h : Handler)
| Unrouted.

(** The routes, after the middlewares. *)
Definition dispatch (cfg : Config) (req : Request) : Outcome :=
  match route req with
  | GetHealth => Handled health
  | GetSearch => Handled (search cfg req)
  | GetOfficers => Handled (officers cfg req)
  | GetDetail => Handled (detail cfg req)
  | NoRoute => Unrouted
  end.

(** A middleware's step, followed by the rest of the chain on [next()]. *)
Definition and_then (s : Step) (rest : Outcome) : Outcome :=
  match s with
  | Next => rest
  | NextError m => Errored m
  | Respond r => Handled (Reply r)
  end.

(** The chain from the shared-secret check on. *)
Definition authenticated (cfg : Config) (req : Request) : Outcome :=
  and_then (auth cfg req) (dispatch cfg req).

(** The whole chain for a request (other than a CORS preflight, which the
    [cors] middleware answers itself) arriving at time [now] with the table
    [hits]: origin check, rate limiter, shared-secret check, routes. *)
Definition app (cfg : Config) (now : Z) (hits : gmap (option string) Entry)
    (req : Request) : gmap (option string) Entry * Outcome :=
  match corsOptions_origin cfg (origin_header req) with
  | Next =>
      let (hits', s) := rate_limit now (ip req) hits in
      (hits', and_then s (authenticated cfg req))
  | s => (hits, and_then s Unrouted)
  end.

(** The rate limiter over a sequence of requests, each given by its arrival
    time and its caller: the final table and the step taken for each. *)
Fixpoint rate_limit_all (hits : gmap (option string) Entry)
    (reqs : list (Z * option string)) : gmap (option string) Entry * list Step :=
  match reqs with
  | [] => (hits, [])
  | (now, key) :: rest =>
      let (hits', s) := rate_limit now key hits in
      let (hits'', ss) := rate_limit_all hits' rest in
      (hits'', s :: ss)
  end.

(** ** Loading the configuration

    The constants of [server.js] as computed from [process.env], a map from
    variable names to strings. *)

(** The code units below 256 that [String.prototype.trim] strips: tab, line
    feed, vertical tab, form feed, carriage return, space and no-break
    space. *)
Definition is_space (c : ascii) : bool :=
  let n := N_of_ascii c in
  ((9 <=? n) && (n <=? 13) || (n =? 32) || (n =? 160))%N.

Fixpoint trim_start (s : string) : string :=
  match s with
  | EmptyString => EmptyString
  | String c r => if is_space c then trim_start r else s
  end.

Fixpoint trim_end (s : string) : string :=
  match s with
  | EmptyString => EmptyString
  | String c r =>
      let r' := trim_end r in
      if is_space c && negb (JsString.nonempty r') then EmptyString else String c r'
  end.

(** [s.trim()]. *)
Definition trim (s : string) : string := trim_end (trim_start s).

(** [s.split(sep)] for a one-character separator: the pieces between the
    separators, so always at least one piece. *)
Fixpoint split (sep : ascii) (s : string) : list string :=
  match s with
  | EmptyString => [EmptyString]
  | String c r =>
      if Ascii.eqb c sep then EmptyString :: split sep r
      else match split sep r with
           | piece :: pieces => String c piece :: pieces
           | [] => [String c EmptyString]
           end
  end.

(** [process.env.NAME || fallback]. *)
Definition env_or (v : option string) (fallback : string) : string :=
  match v with
  | Some s => if JsString.nonempty s then s else fallback
  | None => fallback
  end.

(** [(process.env.CORS_ORIGINS || '').split(',').map(s => s.trim()).filter(Boolean)]. *)
Definition load_origins (v : option string) : list string :=
  List.filter JsString.nonempty (map trim (split "," (env_or v ""))).

(** The four constants read at start-up. *)
Definition load_config (env : gmap string string) : Config :=
  {| ORIGINS := load_origins (env !! "CORS_ORIGINS");
     SHARED_SECRET := env_or (env !! "SHARED_SECRET") "";
     AUTH_HEADER := env_or (env !! "AUTH_HEADER") "x-ch-secret";
     CH_API_KEY := env !! "CH_API_KEY" |}.

(** ** Vocabulary of the specification *)

(** A transport-level failure of the upstream call: [fetch] rejects, the
    body cannot be read, or (on a success status, where the body is parsed)
    the body is not JSON. *)
Definition transport_failure (r : FetchResult) : bool :=
  match r with
  | FetchRejected => true
  | FetchResolved _ BodyBroken => true
  | FetchResolved s (BodyText _ None) => r_ok s
  | FetchResolved _ (BodyText _ (Some _)) => false
  end.

(** [null] and [undefined], on which reading a property throws. *)
Definition nullish (v : jsval) : bool :=
  match v with
  | VUndefined | VNull => true
  | _ => false
  end.

(** Field [k] of an upstream value as the projection is specified: the
    value of the field when the value is an object that has it, [undefined]
    otherwise. *)
Definition field (x : jsval) (k : string) : jsval :=
  match x with
  | VObj props => default VUndefined (own_prop props k)
  | _ => VUndefined
  end.

(** The specified projection of a search item: the four fields, nothing
    else. *)
Definition projected (x : jsval) : jsval :=
  VObj [("title", field x "title");
        ("company_number", field x "company_number");
        ("company_status", field x "company_status");
        ("address_snippet", field x "address_snippet")].

(** The number of requests of caller [k] among [reqs]. *)
Fixpoint by_caller (k : option string) (reqs : list (Z * option string)) : Z :=
  match reqs with
  | [] => 0
  | (_, key) :: rest => (if decide (key = k) then 1 else 0) + by_caller k rest
  end.

(** Every request of caller [k] among [reqs] arrives within the window
    that started at [start]: no more than [WINDOW_MS] later. *)
Fixpoint in_window (start : Z) (k : option string) (reqs : list (Z * option string))
    : bool :=
  match reqs with
  | [] => true
  | (now, key) :: rest =>
      (if decide (key = k) then (now - start <=? WINDOW_MS)%Z else true)
      && in_window start k rest
  end.

(** The step the limiter takes when the count after the increment is [c]. *)
Definition verdict (c : Z) : Step :=
  if (c >? MAX_REQS)%Z then Respond rate_limited else Next.

(** ** Example inputs *)

Definition example_config : Config :=
  {| ORIGINS := ["https://app.example"];
     SHARED_SECRET := "s3cret";
     AUTH_HEADER := "X-CH-Secret";
     CH_API_KEY := Some "key" |}.

Definition example_search_request : Request :=
  {| ip := Some "10.0.0.1";
     path := "/companies-house/search";
     headers := {[ "x-ch-secret" := "s3cret" ]};
     query_q := Some (QStr "acme");
     params_number := None;
     route := GetSearch |}.

Definition unconfigured : Config :=
  {| ORIGINS := []; SHARED_SECRET := ""; AUTH_HEADER := "x-ch-secret";
     CH_API_KEY := None |}.

Definition health_request : Request :=
  {| ip := Some "10.0.0.1"; path := "/health"; headers := ∅;
     query_q := None; params_number := None; route := GetHealth |}.

Definition short_search_request : Request :=
  {| ip := Some "10.0.0.1"; path := "/companies-house/search";
     headers := {[ "x-ch-secret" := "s3cret" ]};
     query_q := Some (QArr [QStr "a"; QStr ""]); params_number := None;
     route := GetSearch |}.

Definition upstream_down (o : Outbound) : FetchResult := FetchRejected.

Definition empty_detail_request : Request :=
  {| ip := Some "10.0.0.1"; path := "/companies-house/";
     headers := {[ "x-ch-secret" := "s3cret" ]};
     query_q := None; params_number := Some ""; route := GetDetail |}.

Definition officers_request : Request :=
  {| ip := Some "10.0.0.1"; path := "/companies-house/00000006/officers";
     headers := {[ "x-ch-secret" := "s3cret" ]};
     query_q := None; params_number := Some "00000006"; route := GetOfficers |}.

Definition upstream_not_found (o : Outbound) : FetchResult :=
  FetchResolved 404 (BodyText "not found" None).

Definition upstream_not_json (o : Outbound) : FetchResult :=
  FetchResolved 200 (BodyText "<html>" None).

(** The double-quote character, for writing JSON texts. *)
Definition dq : string := String (ascii_of_N 34) "".

Definition upstream_null_item (o : Outbound) : FetchResult :=
  FetchResolved 200
    (BodyText ("{" ++ dq ++ "items" ++ dq ++ ":[null]}")
       (Some (VObj [("items", VArr [VNull])]))).

Definition upstream_null_body (o : Outbound) : FetchResult :=
  FetchResolved 200 (BodyText "null" (Some VNull)).

Definition acme : jsval :=
  VObj [("title", VStr "Acme Ltd"); ("company_number", VStr "123");
        ("kind", VStr "searchresults#company");
        ("company_status", VStr "active"); ("address_snippet", VStr "1 Road")].

(** A JSON string literal and a [key: value] member, for texts without
    characters that need escaping. *)
Definition jstr (s : string) : string := dq ++ s ++ dq.
Definition jmember (k v : string) : string := jstr k ++ ":" ++ jstr v.

Definition acme_text : string :=
  "{" ++ jstr "items" ++ ":[{"
  ++ jmember "title" "Acme Ltd" ++ "," ++ jmember "company_number" "123" ++ ","
  ++ jmember "kind" "searchresults#company" ++ ","
  ++ jmember "company_status" "active" ++ ","
  ++ jmember "address_snippet" "1 Road" ++ "},{}]}".

Definition upstream_acme (o : Outbound) : FetchResult :=
  FetchResolved 200 (BodyText acme_text (Some (VObj [("items", VArr [acme; VObj []])]))).

Definition caller : option string := Some "10.0.0.1".
Definition other_caller : option string := Some "10.0.0.2".

(** Sixty-one requests of one caller, one per second from time 0 to time
    60000, with a request of another caller in between. *)
Definition burst_tail : list (Z * option string) :=
  (500, other_caller) :: map (λ i : Z, (i * 1000, caller)%Z) (seqZ 1 60).

(** ** Further vocabulary *)

Definition head_char (s : string) : option ascii :=
  match s with
  | EmptyString => None
  | String c _ => Some c
  end.

Fixpoint last_char (s : string) : option ascii :=
  match s with
  | EmptyString => None
  | String c r => match last_char r with Some d => Some d | None => Some c end
  end.

(** Character [c] occurs in [s]. *)
Fixpoint contains (c : ascii) (s : string) : bool :=
  match s with
  | EmptyString => false
  | String d r => Ascii.eqb d c || contains c r
  end.

Definition env_with_origins : gmap string string :=
  {[ "CORS_ORIGINS" := " https://app.example , ,https://admin.example" ]}.

(** Node keeps the names of the received headers in lower case. *)
Definition lowercase_names (h : gmap string string) : Prop :=
  ∀ k v, h !! k = Some v → JsString.toLowerCase k = k.

(** The specified projection of an officer item: the four fields, [role]
    taken from the upstream [officer_role]. *)
Definition projected_officer (o : jsval) : jsval :=
  VObj [("name", field o "name");
        ("appointed_on", field o "appointed_on");
        ("resigned_on", field o "resigned_on");
        ("role", field o "officer_role")].

(** The items the list handlers can map out of a parsed upstream body: none
    when [items] is missing or falsy, the elements when [items] is an array
    without [null]; there are none to speak of ([None]) when the body is
    [null], when [items] is truthy and no array, or when an element is
    [null]. *)
Definition listed_items (data : jsval) : option (list jsval) :=
  if nullish data then None
  else if negb (truthy (field data "items")) then Some []
  else match field data "items" with
       | VArr l => if forallb (λ x, negb (nullish x)) l then Some l else None
       | _ => None
       end.

Definition upstream_officers (o : Outbound) : FetchResult :=
  FetchResolved 200
    (BodyText ("{" ++ jstr "items" ++ ":[{" ++ jmember "name" "SMITH, Jane" ++ ","
               ++ jmember "officer_role" "director" ++ "," ++ jmember "role" "ignored"
               ++ "," ++ jmember "appointed_on" "2020-01-01" ++ "}]}")
       (Some (VObj [("items", VArr [
          VObj [("name", VStr "SMITH, Jane"); ("officer_role", VStr "director");
                ("role", VStr "ignored"); ("appointed_on", VStr "2020-01-01")]])]))).

Definition upstream_items_not_array (o : Outbound) : FetchResult :=
  FetchResolved 200
    (BodyText ("{" ++ jmember "items" "none" ++ "}")
       (Some (VObj [("items", VStr "none")]))).

Definition detail_request : Request :=
  {| ip := Some "10.0.0.1"; path := "/companies-house/00000006";
     headers := {[ "x-ch-secret" := "s3cret" ]};
     query_q := None; params_number := Some "00000006"; route := GetDetail |}.

(** Every character of [s] satisfies [p]. *)
Fixpoint string_forallb (p : ascii → bool) (s : string) : bool :=
  match s with
  | EmptyString => true
  | String c r => p c && string_forallb p r
  end.

(** The characters a percent-encoded component is made of: the unreserved
    ones and the percent sign. *)
Definition component_char (c : ascii) : bool :=
  JsString.unreserved (N_of_ascii c) || Ascii.eqb c "%".

(** The three shapes of upstream URL, around a component [x]. *)
Definition search_url (x : string) : string :=
  CH_BASE ++ "/search/companies?q=" ++ x ++ "&items_per_page=20".
Definition officers_url (x : string) : string :=
  CH_BASE ++ "/company/" ++ x ++ "/officers?items_per_page=50".
Definition detail_url (x : string) : string :=
  CH_BASE ++ "/company/" ++ x.

Definition slash_request : Request :=
  {| ip := Some "10.0.0.1"; path := "/companies-house/..%2Fsearch%3Fq%3Dx";
     headers := {[ "x-ch-secret" := "s3cret" ]};
     query_q := None; params_number := Some "../search?q=x"; route := GetDetail |}.

(** A value is an object with exactly the properties [keys], in order. *)
Definition object_with_keys (keys : list string) (v : jsval) : Prop :=
  ∃ props, v = VObj props ∧ map fst props = keys.

(** A response body of the form [{items: [..]}] whose elements all have
    exactly the properties [keys]. *)
Definition item_list_body (keys : list string) (r : Response) : Prop :=
  ∃ l, body r = VObj [("items", VArr l)] ∧ Forall (object_with_keys keys) l.

Definition search_keys : list string :=
  ["title"; "company_number"; "company_status"; "address_snippet"].
Definition officer_keys : list string :=
  ["name"; "appointed_on"; "resigned_on"; "role"].

Definition hostile_query_request : Request :=
  {| ip := Some "10.0.0.1"; path := "/companies-house/search";
     headers := {[ "x-ch-secret" := "s3cret" ]};
     query_q := Some (QObj [("toString", QStr "x")]); params_number := None;
     route := GetSearch |}.

(** Express's routing as far as [/health] goes: a request whose path is
    exactly [/health] matches the health route or, with another method, no
    route of the application. *)
Definition health_path_routed (req : Request) : bool :=
  if String.eqb (path req) "/health"
  then match route req with GetHealth | NoRoute => true | _ => false end
  else true.

Definition wrong_token_request : Request :=
  {| ip := Some "10.0.0.1"; path := "/companies-house/search";
     headers := {[ "x-ch-secret" := "guess" ]};
     query_q := Some (QStr "acme"); params_number := None; route := GetSearch |}.

Definition evil_origin_request : Request :=
  {| ip := Some "10.0.0.1"; path := "/companies-house/search";
     headers := {[ "origin" := "https://evil.example"; "x-ch-secret" := "s3cret" ]};
     query_q := Some (QStr "acme"); params_number := None; route := GetSearch |}.

Definition full_window : gmap (option string) Entry :=
  {[ Some "10.0.0.1" := {| count := 60; ts := 0 |} ]}.

(** The number of requests of caller [k] among [reqs] that the limiter let
    pass, given the step taken for each request. *)
Fixpoint passed (k : option string) (reqs : list (Z * option string))
    (steps : list Step) : Z :=
  match reqs, steps with
  | (_, key) :: reqs', s :: steps' =>
      (if decide (key = k) then match s with Next => 1 | _ => 0 end else 0)
      + passed k reqs' steps'
  | _, _ => 0
  end.

(** Caller [k] has an open window in the table after [reqs]: one of its
    requests, arriving at [start], started it, and the entry counts that
    request and the later ones of [k], all of which arrived within the
    window. *)
Definition window_opened (k : option string) (reqs : list (Z * option string))
    (entry : option Entry) : Prop :=
  ∃ (pre : list (Z * option string)) (start : Z) (post : list (Z * option string)),
    reqs = (pre ++ (start, k) :: post)%list
    ∧ in_window start k post = true
    ∧ entry = Some {| count := 1 + by_caller k post; ts := start |}.

(** Requests of two callers over two windows of the first. *)
Definition two_windows : list (Z * option string) :=
  [(0, Some "10.0.0.1"); (10, Some "10.0.0.2"); (59000, Some "10.0.0.1");
   (61000, Some "10.0.0.1"); (61500, Some "10.0.0.2"); (62000, Some "10.0.0.1")].

(** The same request with another [q]. *)
Definition with_query (req : Request) (q : option qval) : Request :=
  {| ip := ip req; path := path req; headers := headers req; query_q := q;
     params_number := params_number req; route := route req |}.

Definition three_letter_request : Request :=
  {| ip := Some "10.0.0.1"; path := "/companies-house/search";
     headers := {[ "x-ch-secret" := "s3cret" ]};
     query_q := Some (QStr "abc"); params_number := None; route := GetSearch |}.

(** * Properties *)

(** ** Basic facts about the JavaScript primitives *)

Lemma nonempty_false (s : string) : JsString.nonempty s = false ↔ s = "".
Proof.
  unfold JsString.nonempty. rewrite negb_false_iff. apply String.eqb_eq.
Qed.

Lemma nonempty_true (s : string) : JsString.nonempty s = true ↔ s ≠ "".
Proof.
  unfold JsString.nonempty. rewrite negb_true_iff. apply String.eqb_neq.
Qed.

Lemma includes_elem_of (l : list string) (s : string) :
  includes l s = true ↔ s ∈ l.
Proof.
  unfold includes. rewrite existsb_exists. split.
  - intros (x & Hin & Heq). apply String.eqb_eq in Heq. subst x.
    by apply list_elem_of_In.
  - intros Hin. exists s. split; [by apply list_elem_of_In | apply String.eqb_refl].
Qed.

Lemma header_differs_false (v : HeaderValue) (secret : string) :
  header_differs v secret = false ↔ v = HString secret.
Proof.
  destruct v as [|s|]; simpl; [done| |done].
  rewrite negb_false_iff, String.eqb_eq. split; [by intros -> | by intros [= ->]].
Qed.

(** The primitives on the inputs of the specification's own examples. *)
Example encodeURIComponent_example :
  JsString.encodeURIComponent "acme & co (uk)" = "acme%20%26%20co%20(uk)".
Proof. reflexivity. Qed.

Example header_name_variants :
  JsString.toLowerCase "X-CH-Secret" = "x-ch-secret"
  ∧ JsString.toUpperCase "X-CH-Secret" = "X-CH-SECRET".
Proof. split; reflexivity. Qed.

Example query_coercion :
  or_empty_toString None = Ok ""
  ∧ or_empty_toString (Some (QStr "acme")) = Ok "acme"
  ∧ or_empty_toString (Some (QArr [QStr "a"; QStr "b"])) = Ok "a,b"
  ∧ or_empty_toString (Some (QObj [("k", QStr "v")])) = Ok "[object Object]".
Proof. repeat split; reflexivity. Qed.

Example search_call_url :
  url (search_call example_config "acme") =
    "https://api.company-information.service.gov.uk/search/companies?q=acme&items_per_page=20"
  ∧ url (officers_call example_config "00000006") =
    "https://api.company-information.service.gov.uk/company/00000006/officers?items_per_page=50"
  ∧ url (detail_call example_config "00000006") =
    "https://api.company-information.service.gov.uk/company/00000006".
Proof. repeat split; reflexivity. Qed.

(** ** The shared-secret check *)

Section Auth.
Variable cfg : Config.
Variable req : Request.

Lemma auth_health : path req = "/health" → auth cfg req = Next.
Proof. intros H. unfold auth. by rewrite H. Qed.

Lemma auth_not_configured :
  path req ≠ "/health" → SHARED_SECRET cfg = "" →
  auth cfg req = Respond not_configured.
Proof.
  intros Hp Hs. unfold auth.
  apply String.eqb_neq in Hp. rewrite Hp.
  apply nonempty_false in Hs. by rewrite Hs.
Qed.

Lemma auth_accepts :
  path req ≠ "/health" → SHARED_SECRET cfg ≠ "" →
  auth_token cfg req = HString (SHARED_SECRET cfg) →
  auth cfg req = Next.
Proof.
  intros Hp Hs Ht. unfold auth.
  apply String.eqb_neq in Hp. rewrite Hp.
  apply nonempty_true in Hs. rewrite Hs, Ht. simpl.
  by rewrite Hs, String.eqb_refl.
Qed.

Lemma auth_rejects :
  path req ≠ "/health" → SHARED_SECRET cfg ≠ "" →
  auth_token cfg req ≠ HString (SHARED_SECRET cfg) →
  auth cfg req = Respond unauthorised.
Proof.
  intros Hp Hs Ht. unfold auth.
  apply String.eqb_neq in Hp. rewrite Hp.
  apply nonempty_true in Hs. rewrite Hs. simpl.
  destruct (header_differs (auth_token cfg req) (SHARED_SECRET cfg)) eqn:Hd.
  - by rewrite orb_true_r.
  - by apply header_differs_false in Hd.
Qed.

(** A falsy token (no header, or an empty one) is never the secret. *)
Lemma falsy_token_differs :
  SHARED_SECRET cfg ≠ "" → header_truthy (auth_token cfg req) = false →
  auth_token cfg req ≠ HString (SHARED_SECRET cfg).
Proof.
  intros Hs Hf Heq. rewrite Heq in Hf. simpl in Hf.
  apply nonempty_true in Hs. congruence.
Qed.

End Auth.

(** Past the origin check and the rate limiter, the application is the
    shared-secret check followed by the routes. *)
Lemma app_past_guards (cfg : Config) (now : Z) (hits hits' : gmap (option string) Entry)
    (req : Request) :
  corsOptions_origin cfg (origin_header req) = Next →
  rate_limit now (ip req) hits = (hits', Next) →
  app cfg now hits req = (hits', authenticated cfg req).
Proof. intros Ho Hr. unfold app. by rewrite Ho, Hr. Qed.

(** A request cut off by the rate limiter never reaches the shared-secret
    check. *)
Lemma app_rate_limited (cfg : Config) (now : Z) (hits hits' : gmap (option string) Entry)
    (req : Request) (r : Response) :
  corsOptions_origin cfg (origin_header req) = Next →
  rate_limit now (ip req) hits = (hits', Respond r) →
  app cfg now hits req = (hits', Handled (Reply r)).
Proof. intros Ho Hr. unfold app. by rewrite Ho, Hr. Qed.

(** C1. On a path other than [/health] and with a shared secret configured,
    the token is read from the configured header name, then its lower-cased
    and then its upper-cased form (the first that gives a truthy value); a
    token that is absent or is not exactly the secret is answered 401 with
    [{error: "Unauthorised"}], and a token that is exactly the secret lets
    the request through to the route handler. *)
Theorem auth_token_decides (cfg : Config) (req : Request) :
  path req ≠ "/health" → SHARED_SECRET cfg ≠ "" →
  let read := header_get (headers req) in
  let name := AUTH_HEADER cfg in
  let rejected :=
    {| status := 401; body := VObj [("error", VStr "Unauthorised")] |} in
  auth_token cfg req =
    (if header_truthy (read name) then read name
     else if header_truthy (read (JsString.toLowerCase name))
          then read (JsString.toLowerCase name)
          else read (JsString.toUpperCase name))
  ∧ (header_truthy (auth_token cfg req) = false
     ∨ auth_token cfg req ≠ HString (SHARED_SECRET cfg) →
     auth cfg req = Respond rejected
     ∧ authenticated cfg req = Handled (Reply rejected))
  ∧ (auth_token cfg req = HString (SHARED_SECRET cfg) →
     auth cfg req = Next
     ∧ authenticated cfg req = dispatch cfg req).
Proof.
  intros Hp Hs read name rejected. split; [|split].
  - unfold auth_token, header_or. fold read name.
    by destruct (header_truthy (read name)).
  - intros Hbad.
    assert (auth_token cfg req ≠ HString (SHARED_SECRET cfg)) as Hne.
    { destruct Hbad as [Hf|Hne]; [by apply falsy_token_differs | done]. }
    unfold authenticated. by rewrite (auth_rejects cfg req Hp Hs Hne).
  - intros Heq. unfold authenticated.
    by rewrite (auth_accepts cfg req Hp Hs Heq).
Qed.

Lemma auth_token_decides_witness :
  path example_search_request ≠ "/health"
  ∧ SHARED_SECRET example_config ≠ ""
  ∧ auth_token example_config example_search_request = HString "s3cret"
  ∧ auth example_config example_search_request = Next.
Proof.
  assert (path example_search_request ≠ "/health") as Hp by done.
  assert (SHARED_SECRET example_config ≠ "") as Hs by done.
  split; [exact Hp | split; [exact Hs | split; [reflexivity |]]].
  exact (proj1 (proj2 (proj2
    (auth_token_decides example_config example_search_request Hp Hs)) eq_refl)).
Defined.

(** C2. With no shared secret configured, the check answers every request
    to a path other than [/health] with 500 and
    [{error: "Server not configured (missing SHARED_SECRET)"}] and no route
    handler runs, while a request to [/health] goes through to its handler
    and is answered 200 with [{ok: true}]. *)
Theorem missing_secret_fails_closed (cfg : Config) (req : Request) :
  SHARED_SECRET cfg = "" →
  let refused :=
    {| status := 500;
       body := VObj [("error", VStr "Server not configured (missing SHARED_SECRET)")] |} in
  (path req ≠ "/health" →
   auth cfg req = Respond refused
   ∧ authenticated cfg req = Handled (Reply refused)
   ∧ ∀ upstream, run upstream (Reply refused) = ([], Some refused))
  ∧ (path req = "/health" → route req = GetHealth →
     auth cfg req = Next
     ∧ authenticated cfg req =
         Handled (Reply {| status := 200; body := VObj [("ok", VBool true)] |})).
Proof.
  intros Hs refused. split.
  - intros Hp. unfold authenticated.
    by rewrite (auth_not_configured cfg req Hp Hs).
  - intros Hp Hr. unfold authenticated, dispatch.
    by rewrite (auth_health cfg req Hp), Hr.
Qed.

Lemma missing_secret_fails_closed_witness :
  SHARED_SECRET unconfigured = ""
  ∧ authenticated unconfigured example_search_request =
      Handled (Reply not_configured)
  ∧ authenticated unconfigured health_request = Handled health.
Proof.
  split; [reflexivity | split].
  - exact (proj1 (proj2 (proj1
      (missing_secret_fails_closed unconfigured example_search_request eq_refl)
      ltac:(done)))).
  - exact (proj2 (proj2
      (missing_secret_fails_closed unconfigured health_request eq_refl)
      eq_refl eq_refl)).
Defined.

(** ** The route handlers *)

Lemma short_length (q : string) :
  (String.length q < 3)%nat →
  negb (JsString.nonempty q) || (Z.of_nat (String.length q) <? 3)%Z = true.
Proof.
  intros Hlen. apply orb_true_iff. right. apply Z.ltb_lt. lia.
Qed.

Lemma long_length (q : string) :
  (3 ≤ String.length q)%nat →
  negb (JsString.nonempty q) || (Z.of_nat (String.length q) <? 3)%Z = false.
Proof.
  intros Hlen. apply orb_false_iff. split.
  - apply negb_false_iff, nonempty_true. intros ->. simpl in Hlen. lia.
  - apply Z.ltb_ge. lia.
Qed.

(** The search handler on a term of at least three characters: one
    upstream call, then the [try] block under its [catch]. *)
Lemma search_calls (cfg : Config) (req : Request) (q : string)
    (upstream : Outbound → FetchResult) :
  or_empty_toString (query_q req) = Ok q → (3 ≤ String.length q)%nat →
  run upstream (search cfg req) =
    ([search_call cfg q],
     Some (try_catch (search_try (upstream (search_call cfg q)))
             (res_status_json 500 no_items))).
Proof.
  intros Hq Hlen. unfold search. rewrite Hq, (long_length q Hlen). reflexivity.
Qed.

Lemma officers_calls (cfg : Config) (req : Request)
    (upstream : Outbound → FetchResult) :
  number_param req ≠ "" →
  run upstream (officers cfg req) =
    ([officers_call cfg (number_param req)],
     Some (try_catch (officers_try (upstream (officers_call cfg (number_param req))))
             (res_status_json 500 no_items))).
Proof.
  intros Hn. unfold officers. apply nonempty_true in Hn. rewrite Hn. reflexivity.
Qed.

Lemma detail_calls (cfg : Config) (req : Request)
    (upstream : Outbound → FetchResult) :
  number_param req ≠ "" →
  run upstream (detail cfg req) =
    ([detail_call cfg (number_param req)],
     Some (try_catch (detail_try (upstream (detail_call cfg (number_param req))))
             details_failed)).
Proof.
  intros Hn. unfold detail. apply nonempty_true in Hn. rewrite Hn. reflexivity.
Qed.

(** The route parameter is empty exactly when it is [undefined] or [""]. *)
Lemma number_param_empty (req : Request) :
  number_param req = "" ↔ params_number req = None ∨ params_number req = Some "".
Proof.
  unfold number_param. destruct (params_number req) as [s|]; [|by split; auto].
  destruct (JsString.nonempty s) eqn:Hs.
  - apply nonempty_true in Hs. split; [done|].
    intros [Hn|Hn]; [done | by injection Hn].
  - apply nonempty_false in Hs. subst s. split; auto.
Qed.

(** C6. A search whose term is missing or shorter than three characters,
    and an officers request whose company number is empty, are answered 200
    with [{items: []}] and make no upstream call. *)
Theorem short_input_answers_empty (cfg : Config) (req : Request)
    (upstream : Outbound → FetchResult) :
  let empty := {| status := 200; body := VObj [("items", VArr [])] |} in
  (query_q req = None → run upstream (search cfg req) = ([], Some empty))
  ∧ (∀ q, or_empty_toString (query_q req) = Ok q → (String.length q < 3)%nat →
       run upstream (search cfg req) = ([], Some empty))
  ∧ (params_number req = None ∨ params_number req = Some "" →
       run upstream (officers cfg req) = ([], Some empty)).
Proof.
  intros empty. split; [|split].
  - intros Hq. unfold search. by rewrite Hq.
  - intros q Hq Hlen. unfold search. by rewrite Hq, (short_length q Hlen).
  - intros Hn. apply number_param_empty in Hn. unfold officers. by rewrite Hn.
Qed.

Lemma short_input_answers_empty_witness :
  or_empty_toString (query_q short_search_request) = Ok "a,"
  ∧ run upstream_down (search example_config short_search_request) =
      ([], Some (res_json no_items))
  ∧ run upstream_down (officers example_config short_search_request) =
      ([], Some (res_json no_items)).
Proof.
  split; [reflexivity | split].
  - refine (proj1 (proj2 (short_input_answers_empty example_config
      short_search_request upstream_down)) "a," eq_refl _).
    simpl. lia.
  - exact (proj2 (proj2 (short_input_answers_empty example_config
      short_search_request upstream_down)) (or_introl eq_refl)).
Defined.

(** C7. A detail request whose company number is empty is answered 400
    with [{error: "No company number"}] and makes no upstream call. *)
Theorem empty_number_is_bad_request (cfg : Config) (req : Request)
    (upstream : Outbound → FetchResult) :
  params_number req = None ∨ params_number req = Some "" →
  run upstream (detail cfg req) =
    ([], Some {| status := 400; body := VObj [("error", VStr "No company number")] |}).
Proof.
  intros Hn. apply number_param_empty in Hn. unfold detail. by rewrite Hn.
Qed.

Lemma empty_number_is_bad_request_witness :
  params_number empty_detail_request = Some ""
  ∧ run upstream_down (detail example_config empty_detail_request) =
      ([], Some no_company_number).
Proof.
  split; [reflexivity |].
  exact (empty_number_is_bad_request example_config empty_detail_request
           upstream_down (or_intror eq_refl)).
Defined.

(** C4. When the upstream answers with a non-success status and body text
    [text], each of the search, officers and detail handlers answers with
    the same status and [{error: "CH error", detail: text}]. *)
Theorem upstream_error_is_forwarded (cfg : Config) (req : Request)
    (upstream : Outbound → FetchResult) (s : Z) (text : string)
    (parsed : option jsval) :
  r_ok s = false →
  (∀ o, upstream o = FetchResolved s (BodyText text parsed)) →
  let forwarded :=
    {| status := s;
       body := VObj [("error", VStr "CH error"); ("detail", VStr text)] |} in
  (∀ q, or_empty_toString (query_q req) = Ok q → (3 ≤ String.length q)%nat →
     run upstream (search cfg req) = ([search_call cfg q], Some forwarded))
  ∧ (number_param req ≠ "" →
     run upstream (officers cfg req) =
       ([officers_call cfg (number_param req)], Some forwarded)
     ∧ run upstream (detail cfg req) =
       ([detail_call cfg (number_param req)], Some forwarded)).
Proof.
  intros Hok Hup forwarded. split.
  - intros q Hq Hlen. rewrite (search_calls cfg req q upstream Hq Hlen).
    rewrite Hup. unfold search_try. simpl. by rewrite Hok.
  - intros Hn. split.
    + rewrite (officers_calls cfg req upstream Hn), Hup.
      unfold officers_try. simpl. by rewrite Hok.
    + rewrite (detail_calls cfg req upstream Hn), Hup.
      unfold detail_try. simpl. by rewrite Hok.
Qed.

Lemma upstream_error_is_forwarded_witness :
  r_ok 404 = false
  ∧ number_param officers_request ≠ ""
  ∧ run upstream_not_found (officers example_config officers_request) =
      ([officers_call example_config "00000006"], Some (ch_error 404 "not found")).
Proof.
  assert (number_param officers_request ≠ "") as Hn by done.
  split; [reflexivity | split; [exact Hn |]].
  exact (proj1 (proj2 (upstream_error_is_forwarded example_config officers_request
    upstream_not_found 404 "not found" None eq_refl (fun _ => eq_refl)) Hn)).
Defined.

Lemma transport_failure_throws (r : FetchResult) :
  transport_failure r = true →
  search_try r = Thrown ∧ officers_try r = Thrown ∧ detail_try r = Thrown.
Proof.
  unfold search_try, officers_try, detail_try.
  destruct r as [|s [|text [data|]]]; simpl; intros Hf; try done.
  - by destruct (r_ok s).
  - by rewrite Hf.
Qed.

(** C8. On a transport-level failure of the upstream call (network error or
    JSON parse failure) the handler answers 500 with its fallback body:
    [{items: []}] for search and officers,
    [{error: "Failed to fetch company details"}] for detail. *)
Theorem transport_failure_falls_back (cfg : Config) (req : Request)
    (upstream : Outbound → FetchResult) :
  (∀ o, transport_failure (upstream o) = true) →
  let no_items_500 := {| status := 500; body := VObj [("items", VArr [])] |} in
  let failed_500 :=
    {| status := 500;
       body := VObj [("error", VStr "Failed to fetch company details")] |} in
  (∀ q, or_empty_toString (query_q req) = Ok q → (3 ≤ String.length q)%nat →
     run upstream (search cfg req) = ([search_call cfg q], Some no_items_500))
  ∧ (number_param req ≠ "" →
     run upstream (officers cfg req) =
       ([officers_call cfg (number_param req)], Some no_items_500)
     ∧ run upstream (detail cfg req) =
       ([detail_call cfg (number_param req)], Some failed_500)).
Proof.
  intros Hup no_items_500 failed_500. split.
  - intros q Hq Hlen. rewrite (search_calls cfg req q upstream Hq Hlen).
    by rewrite (proj1 (transport_failure_throws _ (Hup _))).
  - intros Hn. split.
    + rewrite (officers_calls cfg req upstream Hn).
      by rewrite (proj1 (proj2 (transport_failure_throws _ (Hup _)))).
    + rewrite (detail_calls cfg req upstream Hn).
      by rewrite (proj2 (proj2 (transport_failure_throws _ (Hup _)))).
Qed.

Lemma transport_failure_falls_back_witness :
  (∀ o, transport_failure (upstream_not_json o) = true)
  ∧ run upstream_not_json (search example_config example_search_request) =
      ([search_call example_config "acme"], Some (res_status_json 500 no_items))
  ∧ run upstream_not_json (detail example_config officers_request) =
      ([detail_call example_config "00000006"], Some details_failed).
Proof.
  assert (number_param officers_request ≠ "") as Hn by done.
  split; [intros o; reflexivity | split].
  - refine (proj1 (transport_failure_falls_back example_config
      example_search_request upstream_not_json (fun _ => eq_refl)) "acme" eq_refl _).
    simpl. lia.
  - exact (proj2 (proj2 (transport_failure_falls_back example_config
      officers_request upstream_not_json (fun _ => eq_refl)) Hn)).
Defined.

(** ** Projection of the search results *)

Lemma get_member_field (v : jsval) (k : string) :
  nullish v = false → get_member v k = Ok (field v k).
Proof. by destruct v. Qed.

Lemma search_item_projected (x : jsval) :
  nullish x = false → search_item x = Ok (projected x).
Proof.
  intros Hx. unfold search_item. by rewrite !(get_member_field x _ Hx).
Qed.

Lemma map_search_item (items : list jsval) :
  forallb (λ x, negb (nullish x)) items = true →
  map_try search_item items = Ok (map projected items).
Proof.
  induction items as [|x items IH]; simpl; [done|].
  intros [Hx Hrest]%andb_true_iff. apply negb_true_iff in Hx.
  by rewrite (search_item_projected x Hx), (IH Hrest).
Qed.

(** C5, as stated, fails: a successful upstream response whose [items]
    array holds [null] is not projected item by item but answered 500, and
    a successful response whose body is [null] (so without an [items]
    array) is answered 500 as well. *)
Lemma search_null_item_not_projected :
  (run upstream_null_item (search example_config example_search_request) =
     ([search_call example_config "acme"],
      Some {| status := 500; body := VObj [("items", VArr [])] |})
   ∧ Some {| status := 500; body := VObj [("items", VArr [])] |} ≠
     Some {| status := 200; body := VObj [("items", VArr (map projected [VNull]))] |})
  ∧ (run upstream_null_body (search example_config example_search_request) =
       ([search_call example_config "acme"],
        Some {| status := 500; body := VObj [("items", VArr [])] |})
     ∧ Some {| status := 500; body := VObj [("items", VArr [])] |} ≠
       Some {| status := 200; body := VObj [("items", VArr [])] |}).
Proof. repeat split; (reflexivity || discriminate). Qed.

(** C5, amended. For a successful upstream search response whose parsed
    body is not [null]: when its [items] is an array with no [null]
    element, the answer is 200 with [{items: ..}] holding, for each element
    in order, exactly the four fields [title], [company_number],
    [company_status], [address_snippet], each the element's own value or
    [undefined]; when its [items] is missing (or otherwise falsy), the
    answer is 200 with [{items: []}]. *)
Theorem search_projects_items (cfg : Config) (req : Request)
    (upstream : Outbound → FetchResult) (q : string) (s : Z) (text : string)
    (data : jsval) :
  or_empty_toString (query_q req) = Ok q → (3 ≤ String.length q)%nat →
  upstream (search_call cfg q) = FetchResolved s (BodyText text (Some data)) →
  r_ok s = true →
  nullish data = false →
  (∀ items, field data "items" = VArr items →
     forallb (λ x, negb (nullish x)) items = true →
     run upstream (search cfg req) =
       ([search_call cfg q],
        Some {| status := 200;
                body := VObj [("items", VArr (map projected items))] |}))
  ∧ (truthy (field data "items") = false →
     run upstream (search cfg req) =
       ([search_call cfg q],
        Some {| status := 200; body := VObj [("items", VArr [])] |})).
Proof.
  intros Hq Hlen Hup Hok Hdata.
  rewrite (search_calls cfg req q upstream Hq Hlen), Hup.
  unfold search_try. simpl. rewrite Hok. simpl.
  rewrite (get_member_field data "items" Hdata). simpl.
  split.
  - intros items Hitems Hall. rewrite Hitems. unfold js_or. simpl.
    by rewrite (map_search_item items Hall).
  - intros Hfalsy. unfold js_or. by rewrite Hfalsy.
Qed.

Lemma search_projects_items_witness :
  run upstream_acme (search example_config example_search_request) =
    ([search_call example_config "acme"],
     Some {| status := 200;
             body := VObj [("items", VArr [
               VObj [("title", VStr "Acme Ltd"); ("company_number", VStr "123");
                     ("company_status", VStr "active");
                     ("address_snippet", VStr "1 Road")];
               VObj [("title", VUndefined); ("company_number", VUndefined);
                     ("company_status", VUndefined);
                     ("address_snippet", VUndefined)]])] |}).
Proof.
  refine (proj1 (search_projects_items example_config example_search_request
    upstream_acme "acme" 200 acme_text (VObj [("items", VArr [acme; VObj []])])
    eq_refl _ eq_refl eq_refl eq_refl) [acme; VObj []] eq_refl eq_refl).
  simpl. lia.
Defined.

(** ** The origin callback *)

(** C9, as stated, fails: with a non-empty allow-list, an [Origin] header
    that is present with an empty value is permitted, although the header
    is not absent and its value is not in the list. *)
Lemma empty_origin_is_permitted :
  corsOptions_origin example_config (Some "") = Next
  ∧ ORIGINS example_config ≠ []
  ∧ Some "" ≠ (None : option string)
  ∧ "" ∉ ORIGINS example_config.
Proof.
  split; [reflexivity | split; [done | split; [done |]]].
  intros Hin. apply includes_elem_of in Hin. discriminate Hin.
Qed.

(** The condition of the callback's [if], in the specification's terms. *)
Lemma origin_condition (cfg : Config) (origin : option string) :
  origin_falsy origin
  || (Z.of_nat (length (ORIGINS cfg)) =? 0)%Z
  || includes (ORIGINS cfg) (default "" origin) = true ↔
  ORIGINS cfg = [] ∨ origin = None ∨ origin = Some ""
  ∨ ∃ s, origin = Some s ∧ s ∈ ORIGINS cfg.
Proof.
  rewrite !orb_true_iff, Z.eqb_eq, includes_elem_of. split.
  - intros [[Hf|Hlen]|Hin].
    + destruct origin as [s|]; [|by auto]. simpl in Hf.
      apply negb_true_iff, nonempty_false in Hf. subst s. auto.
    + left. destruct (ORIGINS cfg); [done | simpl in Hlen; lia].
    + destruct origin as [s|]; [|by auto]. simpl in Hin.
      right; right; right. by exists s.
  - intros [Hnil|[Hnone|[Hempty|(s & Hs & Hin)]]].
    + left; right. by rewrite Hnil.
    + left; left. by rewrite Hnone.
    + left; left. by rewrite Hempty.
    + right. by rewrite Hs.
Qed.

(** C9, amended. The origin callback permits the request if and only if the
    allow-list is empty, or the [Origin] header is absent or empty, or its
    value is in the allow-list; otherwise it fails with the error
    ["Not allowed by CORS: "] followed by the origin. *)
Theorem origin_guard_permits (cfg : Config) (origin : option string) :
  (corsOptions_origin cfg origin = Next ↔
     ORIGINS cfg = [] ∨ origin = None ∨ origin = Some ""
     ∨ ∃ s, origin = Some s ∧ s ∈ ORIGINS cfg)
  ∧ (corsOptions_origin cfg origin = Next
     ∨ ∃ s, origin = Some s
            ∧ corsOptions_origin cfg origin = NextError ("Not allowed by CORS: " ++ s)).
Proof.
  pose proof (origin_condition cfg origin) as Hcond.
  unfold corsOptions_origin.
  destruct (origin_falsy origin
            || (Z.of_nat (length (ORIGINS cfg)) =? 0)%Z
            || includes (ORIGINS cfg) (default "" origin)) eqn:Hc.
  - split; [|by left]. split; [intros _; by apply Hcond | done].
  - split.
    + split; [done|]. intros H. apply Hcond in H. discriminate H.
    + right. destruct origin as [s|]; [by exists s | done].
Qed.

(** ** The rate limiter *)

Section RateLimit.
Implicit Types (hits : gmap (option string) Entry) (k key : option string).
Implicit Types (e : Entry) (reqs : list (Z * option string)).

Lemma by_caller_nonneg k reqs : (0 ≤ by_caller k reqs)%Z.
Proof.
  induction reqs as [|[now key] rest IH]; simpl; [lia|].
  case_decide; lia.
Qed.

(** A request of another caller leaves the entry of [k] alone. *)
Lemma rate_limit_other now key k hits :
  key ≠ k → (rate_limit now key hits).1 !! k = hits !! k.
Proof.
  intros Hne. unfold rate_limit.
  match goal with |- context [if ?c then _ else _] =>
    match c with (_ >? MAX_REQS)%Z => destruct c end end;
    simpl; by rewrite lookup_insert_ne.
Qed.

(** A request within the caller's current window: the count goes up by
    one and the window start stays. *)
Lemma rate_limit_same_window now k hits e :
  hits !! k = Some e → (now - ts e ≤ WINDOW_MS)%Z →
  rate_limit now k hits =
    (<[k := {| count := count e + 1; ts := ts e |}]> hits, verdict (count e + 1)).
Proof.
  intros He Hw. unfold rate_limit, verdict. rewrite He. simpl.
  destruct (Z.gtb_spec (now - ts e) WINDOW_MS) as [Hgt|_]; [lia|].
  simpl. by destruct (count e + 1 >? MAX_REQS)%Z.
Qed.

(** The first request of a caller, or a request after the caller's window
    has elapsed: a new window starts at [now] with count one. *)
Lemma rate_limit_new_window now k hits :
  hits !! k = None ∨ (∃ e, hits !! k = Some e ∧ (now - ts e > WINDOW_MS)%Z) →
  rate_limit now k hits = (<[k := {| count := 1; ts := now |}]> hits, Next).
Proof.
  intros [Hnone|(e & He & Hgt)]; unfold rate_limit.
  - rewrite Hnone. simpl. rewrite Z.sub_diag. reflexivity.
  - rewrite He. simpl.
    destruct (Z.gtb_spec (now - ts e) WINDOW_MS) as [_|Hle]; [|lia].
    reflexivity.
Qed.

Lemma rate_limit_all_cons hits now key rest :
  rate_limit_all hits ((now, key) :: rest) =
    ((rate_limit_all (rate_limit now key hits).1 rest).1,
     (rate_limit now key hits).2
       :: (rate_limit_all (rate_limit now key hits).1 rest).2).
Proof.
  simpl. destruct (rate_limit now key hits) as [hits' s]. simpl.
  by destruct (rate_limit_all hits' rest).
Qed.

(** Within one window of caller [k], whatever other callers do in
    between: the entry of [k] counts the requests of [k], and each of
    them is answered by the count reached with it. *)
Lemma window_run reqs : ∀ hits k e,
  hits !! k = Some e → in_window (ts e) k reqs = true →
  (rate_limit_all hits reqs).1 !! k =
    Some {| count := count e + by_caller k reqs; ts := ts e |}
  ∧ ∀ i now, reqs !! i = Some (now, k) →
      (rate_limit_all hits reqs).2 !! i =
        Some (verdict (count e + by_caller k (take (S i) reqs))).
Proof.
  induction reqs as [|[now key] rest IH]; intros hits k e He Hwin.
  - simpl. rewrite Z.add_0_r. split; [by destruct e | done].
  - rewrite rate_limit_all_cons. simpl in Hwin.
    apply andb_true_iff in Hwin as [Hnow Hrest]. simpl.
    destruct (decide (key = k)) as [->|Hne].
    + apply Z.leb_le in Hnow.
      rewrite (rate_limit_same_window now k hits e He Hnow). simpl.
      destruct (IH (<[k := {| count := count e + 1; ts := ts e |}]> hits) k
                  {| count := count e + 1; ts := ts e |}) as [IHe IHs].
      { apply lookup_insert_eq. }
      { exact Hrest. }
      simpl in IHe, IHs. split.
      * rewrite IHe. do 2 f_equal; lia.
      * intros [|i] now' Hi; simpl.
        -- done.
        -- simpl in Hi. rewrite (IHs i now' Hi). do 2 f_equal; lia.
    + assert ((rate_limit now key hits).1 !! k = Some e) as He'.
      { by rewrite rate_limit_other. }
      destruct (IH (rate_limit now key hits).1 k e He' Hrest) as [IHe IHs].
      split.
      * rewrite IHe. do 2 f_equal; lia.
      * intros [|i] now' Hi; simpl.
        -- simpl in Hi. congruence.
        -- simpl in Hi. rewrite (IHs i now' Hi). do 2 f_equal; lia.
Qed.

End RateLimit.

(** C3. The limiter keeps one fixed-window counter per caller. On each
    request it takes the caller's entry (a fresh one for a new caller),
    resets the count to 0 and restarts the window at the current time if
    more than 60 seconds have passed since the window start, increments the
    count, stores the entry, and answers 429 with
    [{error: "Rate limit exceeded"}] exactly when the incremented count
    exceeds 60. So, whatever other callers do in between, of a caller's
    requests within one window the first 60 pass and the 61st (and any
    later one) gets 429, and the first request after the window has elapsed
    passes again. *)
Theorem fixed_window_limiter :
  let too_many :=
    Respond {| status := 429; body := VObj [("error", VStr "Rate limit exceeded")] |} in
  (∀ (now : Z) (key : option string) (hits : gmap (option string) Entry),
     let e := default {| count := 0; ts := now |} (hits !! key) in
     let elapsed := bool_decide (now - ts e > 60 * 1000)%Z in
     let c := ((if elapsed then 0 else count e) + 1)%Z in
     (rate_limit now key hits).1 =
       <[key := {| count := c; ts := if elapsed then now else ts e |}]> hits
     ∧ ((rate_limit now key hits).2 = too_many ↔ (c > 60)%Z)
     ∧ ((rate_limit now key hits).2 = Next ↔ (c ≤ 60)%Z))
  ∧ (∀ (hits : gmap (option string) Entry) (k : option string) (start : Z)
       (reqs : list (Z * option string)),
       hits !! k = None ∨ (∃ e, hits !! k = Some e ∧ (start - ts e > WINDOW_MS)%Z) →
       in_window start k reqs = true →
       ∀ (i : nat) (now : Z), ((start, k) :: reqs) !! i = Some (now, k) →
         let nth := by_caller k (take (S i) ((start, k) :: reqs)) in
         ((nth ≤ 60)%Z → (rate_limit_all hits ((start, k) :: reqs)).2 !! i = Some Next)
         ∧ ((60 < nth)%Z →
            (rate_limit_all hits ((start, k) :: reqs)).2 !! i = Some too_many))
  ∧ (∀ (hits : gmap (option string) Entry) (k : option string) (e : Entry) (now : Z),
       hits !! k = Some e → (now - ts e > WINDOW_MS)%Z →
       rate_limit now k hits = (<[k := {| count := 1; ts := now |}]> hits, Next)).
Proof.
  intros too_many. split; [|split].
  - intros now key hits e elapsed c. unfold rate_limit. fold e.
    change (60 * 1000)%Z with WINDOW_MS in elapsed.
    assert ((now - ts e >? WINDOW_MS)%Z = elapsed) as ->.
    { unfold elapsed. destruct (Z.gtb_spec (now - ts e) WINDOW_MS).
      - by rewrite bool_decide_eq_true_2 by lia.
      - by rewrite bool_decide_eq_false_2 by lia. }
    assert (count {| count := count (if elapsed then {| count := 0; ts := now |} else e) + 1;
                     ts := ts (if elapsed then {| count := 0; ts := now |} else e) |} = c) as Hc.
    { unfold c. by destruct elapsed. }
    assert (ts (if elapsed then {| count := 0; ts := now |} else e) =
            (if elapsed then now else ts e)) as Ht.
    { by destruct elapsed. }
    rewrite Hc. simpl in Hc. rewrite Hc, Ht. unfold MAX_REQS.
    destruct (Z.gtb_spec c 60) as [Hgt|Hle]; simpl.
    + split; [done|]. split; [split; [lia | done] | split; [done | lia]].
    + split; [done|]. split; [split; [done | lia] | split; [lia | done]].
  - intros hits k start reqs Hopen Hwin i now Hi nth.
    rewrite rate_limit_all_cons, (rate_limit_new_window start k hits Hopen).
    simpl.
    destruct (window_run reqs (<[k := {| count := 1; ts := start |}]> hits) k
                {| count := 1; ts := start |}) as [_ Hsteps].
    { apply lookup_insert_eq. }
    { exact Hwin. }
    simpl in Hsteps.
    assert (∀ c, (c ≤ 60)%Z → verdict c = Next) as Hpass.
    { intros c Hc. unfold verdict, MAX_REQS.
      by destruct (Z.gtb_spec c 60) as [Hgt|_]; [lia|]. }
    assert (∀ c, (60 < c)%Z → verdict c = too_many) as Hstop.
    { intros c Hc. unfold verdict, MAX_REQS.
      by destruct (Z.gtb_spec c 60) as [_|Hle]; [|lia]. }
    destruct i as [|i].
    + subst nth. simpl. rewrite decide_True by done.
      split; [done | lia].
    + simpl in Hi. specialize (Hsteps i now Hi). subst nth.
      cbn [take by_caller]. rewrite decide_True by done.
      split; intros Hn; (etrans; [exact Hsteps|]); f_equal;
        [apply Hpass | apply Hstop]; lia.
  - intros hits k e now He Hgt. apply rate_limit_new_window. right. by exists e.
Qed.

Lemma fixed_window_limiter_witness :
  in_window 0 caller burst_tail = true
  ∧ (rate_limit_all ∅ ((0, caller) :: burst_tail)).2 !! 60%nat = Some Next
  ∧ (rate_limit_all ∅ ((0, caller) :: burst_tail)).2 !! 61%nat =
      Some (Respond rate_limited)
  ∧ rate_limit 60001 caller {[ caller := {| count := 61; ts := 0 |} ]} =
      (<[caller := {| count := 1; ts := 60001 |}]>
         {[ caller := {| count := 61; ts := 0 |} ]}, Next).
Proof.
  assert (in_window 0 caller burst_tail = true) as Hwin by reflexivity.
  split; [exact Hwin | split; [|split]].
  - refine (proj1 (proj1 (proj2 fixed_window_limiter) ∅ caller 0 burst_tail
      (or_introl eq_refl) Hwin 60%nat 59000 eq_refl) _).
    vm_compute. discriminate.
  - refine (proj2 (proj1 (proj2 fixed_window_limiter) ∅ caller 0 burst_tail
      (or_introl eq_refl) Hwin 61%nat 60000 eq_refl) _).
    vm_compute. reflexivity.
  - refine (proj2 (proj2 fixed_window_limiter)
      {[ caller := {| count := 61; ts := 0 |} ]} caller
      {| count := 61; ts := 0 |} 60001 eq_refl _).
    vm_compute. reflexivity.
Defined.

(** The step taken is the verdict on the count just stored. *)
Lemma rate_limit_entry (now : Z) (key : option string)
    (hits : gmap (option string) Entry) :
  ∃ e', (rate_limit now key hits).1 !! key = Some e'
        ∧ (rate_limit now key hits).2 = verdict (count e').
Proof.
  unfold rate_limit, verdict. cbv zeta.
  set (e := Build_Entry _ _). exists e.
  destruct (count e >? MAX_REQS)%Z; simpl; by rewrite lookup_insert_eq.
Qed.

Lemma verdict_limited (c : Z) (r : Response) :
  verdict c = Respond r → (MAX_REQS < c)%Z ∧ r = rate_limited.
Proof.
  unfold verdict. destruct (Z.gtb_spec c MAX_REQS) as [Hgt|Hle]; [|done].
  intros [= <-]. split; [lia | done].
Qed.

(** C10. Within a window, every request of a caller adds one to the
    caller's stored count, whether it is answered 429 or not; no request
    lowers the count except one that resets the window; so once a caller
    has been answered 429, every later request of that caller within the
    same window is answered 429 too, whatever other callers do in
    between. *)
Theorem limited_until_window_resets :
  let too_many :=
    Respond {| status := 429; body := VObj [("error", VStr "Rate limit exceeded")] |} in
  (∀ (hits : gmap (option string) Entry) (k : option string) (e : Entry) (now : Z),
     hits !! k = Some e → (now - ts e ≤ WINDOW_MS)%Z →
     (rate_limit now k hits).1 !! k = Some {| count := count e + 1; ts := ts e |}
     ∧ ((rate_limit now k hits).2 = too_many ↔ (count e + 1 > 60)%Z))
  ∧ (∀ (hits : gmap (option string) Entry) (k key : option string) (e : Entry)
       (now : Z),
       hits !! k = Some e →
       ∃ e', (rate_limit now key hits).1 !! k = Some e'
             ∧ ((count e ≤ count e')%Z
                ∨ (key = k ∧ (now - ts e > WINDOW_MS)%Z
                   ∧ e' = {| count := 1; ts := now |})))
  ∧ (∀ (hits hits' : gmap (option string) Entry) (k : option string) (now : Z)
       (e' : Entry) (reqs : list (Z * option string)),
       rate_limit now k hits = (hits', too_many) →
       hits' !! k = Some e' →
       in_window (ts e') k reqs = true →
       ∀ (i : nat) (t : Z), reqs !! i = Some (t, k) →
         (rate_limit_all hits' reqs).2 !! i = Some too_many).
Proof.
  intros too_many. split; [|split].
  - intros hits k e now He Hw.
    rewrite (rate_limit_same_window now k hits e He Hw). simpl.
    rewrite lookup_insert_eq. split; [done|].
    unfold verdict, MAX_REQS.
    destruct (Z.gtb_spec (count e + 1) 60); split; (done || lia).
  - intros hits k key e now He.
    destruct (decide (key = k)) as [->|Hne].
    + destruct (Z.le_gt_cases (now - ts e) WINDOW_MS) as [Hle|Hgt].
      * rewrite (rate_limit_same_window now k hits e He Hle). simpl.
        rewrite lookup_insert_eq. eexists. split; [done|]. left. simpl. lia.
      * rewrite (rate_limit_new_window now k hits).
        2:{ right. exists e. split; [done | lia]. }
        simpl. rewrite lookup_insert_eq. eexists. split; [done|].
        right. split; [done | split; [lia | done]].
    + exists e. rewrite rate_limit_other by done. split; [done | left; lia].
  - intros hits hits' k now e' reqs Hstep He' Hwin i t Hi.
    destruct (rate_limit_entry now k hits) as (e1 & He1 & Hv).
    rewrite Hstep in He1, Hv. simpl in He1, Hv.
    assert (e1 = e') as -> by congruence.
    symmetry in Hv. apply verdict_limited in Hv as [Hmax _].
    destruct (window_run reqs hits' k e' He' Hwin) as [_ Hsteps].
    rewrite (Hsteps i t Hi). f_equal.
    pose proof (by_caller_nonneg k (take (S i) reqs)) as Hn.
    unfold verdict.
    by destruct (Z.gtb_spec (count e' + by_caller k (take (S i) reqs)) MAX_REQS)
      as [_|Hle]; [|lia].
Qed.

Lemma limited_until_window_resets_witness :
  rate_limit 10 caller {[ caller := {| count := 60; ts := 0 |} ]} =
    ({[ caller := {| count := 61; ts := 0 |} ]}, Respond rate_limited)
  ∧ (rate_limit_all {[ caller := {| count := 61; ts := 0 |} ]}
       [(20, other_caller); (60000, caller)]).2 !! 1%nat =
      Some (Respond rate_limited).
Proof.
  assert (rate_limit 10 caller {[ caller := {| count := 60; ts := 0 |} ]} =
            ({[ caller := {| count := 61; ts := 0 |} ]}, Respond rate_limited))
    as Hstep by (vm_compute; reflexivity).
  split; [exact Hstep |].
  exact (proj2 (proj2 limited_until_window_resets)
    {[ caller := {| count := 60; ts := 0 |} ]}
    {[ caller := {| count := 61; ts := 0 |} ]}
    caller 10 {| count := 61; ts := 0 |}
    [(20, other_caller); (60000, caller)]
    Hstep eq_refl eq_refl 1%nat 60000 eq_refl).
Defined.

(** * Further properties *)

(** ** Loading the configuration *)

Lemma trim_end_idempotent (s : string) : trim_end (trim_end s) = trim_end s.
Proof.
  induction s as [|c r IH]; [done|]. simpl.
  destruct (is_space c && negb (JsString.nonempty (trim_end r))) eqn:Hc; [done|].
  simpl. by rewrite IH, Hc.
Qed.

Lemma last_char_none (s : string) : last_char s = None → s = "".
Proof.
  destruct s as [|c r]; [done|]. simpl. by destruct (last_char r).
Qed.

Lemma trim_end_last (s : string) (c : ascii) :
  last_char (trim_end s) = Some c → is_space c = false.
Proof.
  revert c. induction s as [|d r IH]; intros c; [done|]. simpl.
  destruct (is_space d && negb (JsString.nonempty (trim_end r))) eqn:Hc; [done|].
  simpl. destruct (last_char (trim_end r)) as [e|] eqn:Hl.
  - intros [= <-]. by apply IH.
  - intros [= <-]. apply last_char_none in Hl. rewrite Hl in Hc.
    simpl in Hc. by rewrite andb_true_r in Hc.
Qed.

Lemma trim_start_head (s : string) (c : ascii) :
  head_char (trim_start s) = Some c → is_space c = false.
Proof.
  induction s as [|d r IH]; [done|]. simpl.
  destruct (is_space d) eqn:Hd; [done|]. simpl. by intros [= <-].
Qed.

(** [trim_end] keeps a first character that is no white space. *)
Lemma trim_end_head (s : string) (c : ascii) :
  head_char (trim_end s) = Some c → head_char s = Some c.
Proof.
  destruct s as [|d r]; [done|]. simpl.
  by destruct (is_space d && negb (JsString.nonempty (trim_end r))).
Qed.

Lemma contains_trim_start (c : ascii) (s : string) :
  contains c (trim_start s) = true → contains c s = true.
Proof.
  induction s as [|d r IH]; [done|]. simpl.
  destruct (is_space d); [|done]. intros H. rewrite (IH H). apply orb_true_r.
Qed.

Lemma contains_trim_end (c : ascii) (s : string) :
  contains c (trim_end s) = true → contains c s = true.
Proof.
  induction s as [|d r IH]; [done|]. simpl.
  destruct (is_space d && negb (JsString.nonempty (trim_end r))); [done|].
  simpl. intros [H|H]%orb_true_iff; [by rewrite H|].
  rewrite (IH H). apply orb_true_r.
Qed.

Lemma contains_trim (c : ascii) (s : string) :
  contains c (trim s) = true → contains c s = true.
Proof. intros H. by apply contains_trim_start, contains_trim_end. Qed.

Lemma split_nonempty (sep : ascii) (s : string) : split sep s ≠ [].
Proof.
  destruct s as [|c r]; [done|]. simpl.
  destruct (Ascii.eqb c sep); [done|]. by destruct (split sep r).
Qed.

(** No piece of a split holds the separator. *)
Lemma split_pieces (sep : ascii) (s : string) :
  Forall (λ piece, contains sep piece = false) (split sep s).
Proof.
  induction s as [|c r IH]; simpl; [by repeat constructor|].
  destruct (Ascii.eqb c sep) eqn:Hc; [by constructor|].
  destruct (split sep r) as [|piece pieces]; [by repeat constructor; simpl; rewrite Hc|].
  inversion IH as [|? ? Hpiece Hpieces]; subst.
  constructor; [|done]. simpl. by rewrite Hc, Hpiece.
Qed.

(** Joining the pieces with the separator gives the string back. *)
Lemma join_split (sep : ascii) (s : string) :
  JsString.join (String sep "") (split sep s) = s.
Proof.
  induction s as [|c r IH]; [done|]. simpl.
  pose proof (split_nonempty sep r) as Hne.
  destruct (Ascii.eqb_spec c sep) as [->|Hc].
  - destruct (split sep r) as [|piece pieces] eqn:Hs; [done|].
    simpl in *. by rewrite IH.
  - destruct (split sep r) as [|piece pieces] eqn:Hs; [done|].
    destruct pieces as [|p ps]; simpl in *; by rewrite <- IH.
Qed.

Lemma elem_of_load_origins (v : option string) (o : string) :
  o ∈ load_origins v ↔
  o ≠ "" ∧ ∃ piece, piece ∈ split "," (env_or v "") ∧ trim piece = o.
Proof.
  unfold load_origins. rewrite list_elem_of_In, filter_In, nonempty_true, in_map_iff.
  split.
  - intros [(piece & <- & Hin) Hne]. split; [done|].
    exists piece. by rewrite list_elem_of_In.
  - intros [Hne (piece & Hin & <-)]. split; [|done].
    exists piece. by rewrite <- list_elem_of_In.
Qed.

(** X1. Every entry of [ORIGINS] is non-empty, has no white space at either
    end and holds no comma. *)
Theorem loaded_origins_are_clean (v : option string) (o : string) :
  o ∈ load_origins v →
  o ≠ ""
  ∧ (∀ c, head_char o = Some c → is_space c = false)
  ∧ (∀ c, last_char o = Some c → is_space c = false)
  ∧ contains "," o = false.
Proof.
  intros (Hne & piece & Hin & <-)%elem_of_load_origins.
  split; [done|]. split; [|split].
  - intros c Hc. apply trim_end_head in Hc. by apply trim_start_head in Hc.
  - intros c Hc. by apply trim_end_last in Hc.
  - pose proof (split_pieces "," (env_or v "")) as Hall.
    rewrite Forall_forall in Hall. specialize (Hall piece Hin).
    destruct (contains "," (trim piece)) eqn:Hc; [|done].
    apply contains_trim in Hc. congruence.
Qed.

Lemma loaded_origins_are_clean_witness :
  load_origins (Some " https://app.example , ,https://admin.example") =
    ["https://app.example"; "https://admin.example"]
  ∧ contains "," "https://admin.example" = false.
Proof.
  split; [reflexivity|].
  refine (proj2 (proj2 (proj2 (loaded_origins_are_clean
    (Some " https://app.example , ,https://admin.example")
    "https://admin.example" _)))).
  apply list_elem_of_In. vm_compute. auto.
Defined.

Lemma corsOptions_origin_next (cfg : Config) (origin : option string) :
  corsOptions_origin cfg origin = Next ↔
  ORIGINS cfg = [] ∨ origin = None ∨ origin = Some ""
  ∨ ∃ s, origin = Some s ∧ s ∈ ORIGINS cfg.
Proof.
  rewrite <- origin_condition. unfold corsOptions_origin.
  by destruct (origin_falsy origin
               || (Z.of_nat (length (ORIGINS cfg)) =? 0)%Z
               || includes (ORIGINS cfg) (default "" origin)).
Qed.

Lemma load_origins_nil (v : option string) :
  load_origins v = [] ↔ Forall (λ piece, trim piece = "") (split "," (env_or v "")).
Proof.
  unfold load_origins. induction (split "," (env_or v "")) as [|p ps IH]; simpl.
  - split; [by constructor | done].
  - destruct (JsString.nonempty (trim p)) eqn:Hp.
    + apply nonempty_true in Hp. split; [done|]. by inversion 1.
    + apply nonempty_false in Hp. rewrite IH. split.
      * by constructor.
      * by inversion 1.
Qed.

(** X2. When [CORS_ORIGINS] is unset, empty, or holds nothing but commas
    and white space, the origin list is empty and the origin callback
    permits every request, whatever its [Origin] header. *)
Theorem no_origin_list_permits_all (env : gmap string string) :
  (env !! "CORS_ORIGINS" = None ∨ env !! "CORS_ORIGINS" = Some "" →
   ORIGINS (load_config env) = [])
  ∧ (ORIGINS (load_config env) = [] ↔
     Forall (λ piece, trim piece = "")
       (split "," (env_or (env !! "CORS_ORIGINS") "")))
  ∧ (ORIGINS (load_config env) = [] →
     ∀ origin, corsOptions_origin (load_config env) origin = Next).
Proof.
  split; [|split].
  - intros [H|H]; simpl; by rewrite H.
  - apply load_origins_nil.
  - intros Hnil origin. apply corsOptions_origin_next. by left.
Qed.

Lemma no_origin_list_permits_all_witness :
  ORIGINS (load_config {[ "CORS_ORIGINS" := " , ," ]}) = []
  ∧ corsOptions_origin (load_config {[ "CORS_ORIGINS" := " , ," ]})
      (Some "https://evil.example") = Next.
Proof.
  split; [reflexivity|].
  exact (proj2 (proj2 (no_origin_list_permits_all {[ "CORS_ORIGINS" := " , ," ]}))
           eq_refl (Some "https://evil.example")).
Defined.

(** X3. With a non-empty origin list, a request with a non-empty [Origin]
    is permitted exactly when the origin is one of the comma-separated
    entries of [CORS_ORIGINS] with the white space around it removed: the
    match is exact, case included. *)
Theorem listed_origin_is_permitted (env : gmap string string) (o : string) :
  o ≠ "" → ORIGINS (load_config env) ≠ [] →
  (corsOptions_origin (load_config env) (Some o) = Next ↔
   ∃ piece, piece ∈ split "," (env_or (env !! "CORS_ORIGINS") "") ∧ trim piece = o)
  ∧ (corsOptions_origin (load_config env) (Some o) ≠ Next →
     corsOptions_origin (load_config env) (Some o) =
       NextError ("Not allowed by CORS: " ++ o)).
Proof.
  intros Ho Hlist. split.
  - rewrite corsOptions_origin_next. split.
    + intros [Hnil|[Hnone|[Hempty|(s & [= <-] & Hin)]]]; try done.
      * congruence.
      * by apply elem_of_load_origins in Hin as [_ Hin].
    + intros Hpiece. right; right; right. exists o. split; [done|].
      by apply elem_of_load_origins.
  - unfold corsOptions_origin.
    by destruct (origin_falsy (Some o)
                 || (Z.of_nat (length (ORIGINS (load_config env))) =? 0)%Z
                 || includes (ORIGINS (load_config env)) (default "" (Some o))).
Qed.

Lemma listed_origin_is_permitted_witness :
  corsOptions_origin (load_config env_with_origins) (Some "https://admin.example") = Next
  ∧ corsOptions_origin (load_config env_with_origins) (Some "https://ADMIN.example") =
      NextError "Not allowed by CORS: https://ADMIN.example".
Proof.
  assert ("https://admin.example" ≠ "") as H1 by done.
  assert ("https://ADMIN.example" ≠ "") as H2 by done.
  assert (ORIGINS (load_config env_with_origins) ≠ []) as Hl by done.
  split.
  - apply (proj1 (listed_origin_is_permitted env_with_origins _ H1 Hl)).
    exists "https://admin.example". split; [|reflexivity].
    apply list_elem_of_In. vm_compute. auto.
  - apply (proj2 (listed_origin_is_permitted env_with_origins _ H2 Hl)).
    vm_compute. discriminate.
Defined.

(** ** The header the shared-secret check reads *)

Lemma lower_upper_char (c : ascii) :
  JsString.lower_char (JsString.upper_char c) = JsString.lower_char c.
Proof. destruct c as [[] [] [] [] [] [] [] []]; reflexivity. Qed.

Lemma lower_upper (s : string) :
  JsString.toLowerCase (JsString.toUpperCase s) = JsString.toLowerCase s.
Proof.
  unfold JsString.toLowerCase, JsString.toUpperCase.
  induction s as [|c r IH]; [done|]. simpl. by rewrite lower_upper_char, IH.
Qed.

Section HeaderName.
Variable cfg : Config.
Variable req : Request.
Hypothesis Hnames : lowercase_names (headers req).
Hypothesis Hname : includes object_prototype_names (AUTH_HEADER cfg) = false.

Lemma header_get_own (name v : string) :
  header_get (headers req) name = HString v → headers req !! name = Some v.
Proof.
  unfold header_get. destruct (headers req !! name); [by intros [= ->]|].
  by destruct (includes object_prototype_names name).
Qed.

(** Each of the three lookups gives either nothing truthy or the value of
    the lower-cased header. *)
Lemma lookup_as_configured (v : string) :
  header_get (headers req) (AUTH_HEADER cfg) = HString v →
  headers req !! (JsString.toLowerCase (AUTH_HEADER cfg)) = Some v.
Proof.
  intros H%header_get_own.
  by rewrite (Hnames _ _ H).
Qed.

Lemma lookup_upper (v : string) :
  header_get (headers req) (JsString.toUpperCase (AUTH_HEADER cfg)) = HString v →
  headers req !! (JsString.toLowerCase (AUTH_HEADER cfg)) = Some v.
Proof.
  intros H%header_get_own.
  rewrite <- lower_upper. by rewrite (Hnames _ _ H).
Qed.

Lemma lookup_as_configured_inherited :
  header_get (headers req) (AUTH_HEADER cfg) ≠ HInherited.
Proof.
  unfold header_get. destruct (headers req !! AUTH_HEADER cfg); [done|].
  by rewrite Hname.
Qed.

Lemma auth_token_is_lower_header (secret : string) :
  secret ≠ "" →
  auth_token cfg req = HString secret ↔
  headers req !! (JsString.toLowerCase (AUTH_HEADER cfg)) = Some secret.
Proof.
  intros Hs. apply nonempty_true in Hs.
  unfold auth_token, header_or. split.
  - destruct (header_truthy (header_get (headers req) (AUTH_HEADER cfg))).
    { apply lookup_as_configured. }
    destruct (header_truthy
                (header_get (headers req) (JsString.toLowerCase (AUTH_HEADER cfg)))).
    { apply header_get_own. }
    apply lookup_upper.
  - intros Hown.
    assert (header_get (headers req) (JsString.toLowerCase (AUTH_HEADER cfg)) =
            HString secret) as Hl.
    { unfold header_get. by rewrite Hown. }
    destruct (header_get (headers req) (AUTH_HEADER cfg)) as [|v|] eqn:Ha; simpl.
    + rewrite Hl. simpl. by rewrite Hs.
    + pose proof (lookup_as_configured v Ha) as Hv.
      assert (v = secret) as -> by congruence. by rewrite Hs.
    + by destruct lookup_as_configured_inherited.
Qed.

End HeaderName.


Lemma example_names_lowercase : lowercase_names (headers example_search_request).
Proof.
  intros k v H. cbn [headers example_search_request] in H.
  apply lookup_singleton_Some in H as [<- _]. reflexivity.
Defined.


(** ** The list handlers on every successful upstream body *)

Lemma search_item_null (x : jsval) : nullish x = true → search_item x = Thrown.
Proof. by destruct x. Qed.

Lemma officer_item_null (o : jsval) : nullish o = true → officer_item o = Thrown.
Proof. by destruct o. Qed.

Lemma officer_item_projected (o : jsval) :
  nullish o = false → officer_item o = Ok (projected_officer o).
Proof.
  intros Ho. unfold officer_item. by rewrite !(get_member_field o _ Ho).
Qed.

(** Mapping an item function that throws exactly on [null]. *)
Lemma map_try_items (f : jsval → Try jsval) (g : jsval → jsval) (l : list jsval) :
  (∀ x, nullish x = true → f x = Thrown) →
  (∀ x, nullish x = false → f x = Ok (g x)) →
  map_try f l =
    if forallb (λ x, negb (nullish x)) l then Ok (map g l) else Thrown.
Proof.
  intros Hnull Hok. induction l as [|x l IH]; [done|]. simpl.
  destruct (nullish x) eqn:Hx; simpl.
  - by rewrite (Hnull x Hx).
  - rewrite (Hok x Hx), IH. simpl.
    by destruct (forallb (λ x, negb (nullish x)) l).
Qed.

(** The items part of the two list handlers. *)
Lemma list_items (f : jsval → Try jsval) (g : jsval → jsval) (data : jsval) :
  (∀ x, nullish x = true → f x = Thrown) →
  (∀ x, nullish x = false → f x = Ok (g x)) →
  (let? data_items := get_member data "items" in
   let? items := js_map (js_or data_items (VArr [])) f in
   Ok (res_json (VObj [("items", VArr items)]))) =
  match listed_items data with
  | Some l => Ok (res_json (VObj [("items", VArr (map g l))]))
  | None => Thrown
  end.
Proof.
  intros Hnull Hok. unfold listed_items.
  destruct (nullish data) eqn:Hdata; [by destruct data|].
  rewrite (get_member_field data "items" Hdata). simpl. unfold js_or.
  destruct (truthy (field data "items")) eqn:Ht; simpl; [|done].
  destruct (field data "items") as [| | | | |l|]; try done.
  simpl. rewrite (map_try_items f g l Hnull Hok).
  by destruct (forallb (λ x, negb (nullish x)) l).
Qed.

(** X5. The officers handler on a successful upstream response. When the
    parsed body is not [null] and its [items] is missing, falsy, or an
    array without [null], the answer is 200 with [{items: ..}] holding for
    each element exactly [name], [appointed_on], [resigned_on] and [role],
    the last taken from the element's [officer_role] (an upstream [role] is
    ignored); on any other body the answer is 500 with [{items: []}]. *)
Theorem officers_projects_or_fails (cfg : Config) (req : Request)
    (upstream : Outbound → FetchResult) (s : Z) (text : string) (data : jsval) :
  number_param req ≠ "" →
  upstream (officers_call cfg (number_param req)) =
    FetchResolved s (BodyText text (Some data)) →
  r_ok s = true →
  run upstream (officers cfg req) =
    ([officers_call cfg (number_param req)],
     Some match listed_items data with
          | Some l => {| status := 200;
                         body := VObj [("items", VArr (map projected_officer l))] |}
          | None => {| status := 500; body := VObj [("items", VArr [])] |}
          end).
Proof.
  intros Hn Hup Hok. rewrite (officers_calls cfg req upstream Hn), Hup.
  unfold officers_try. simpl. rewrite Hok. simpl.
  rewrite (list_items officer_item projected_officer data
             officer_item_null officer_item_projected).
  by destruct (listed_items data).
Qed.

Lemma officers_projects_or_fails_witness :
  run upstream_officers (officers example_config officers_request) =
    ([officers_call example_config "00000006"],
     Some {| status := 200;
             body := VObj [("items", VArr [
               VObj [("name", VStr "SMITH, Jane");
                     ("appointed_on", VStr "2020-01-01");
                     ("resigned_on", VUndefined);
                     ("role", VStr "director")]])] |})
  ∧ run upstream_items_not_array (officers example_config officers_request) =
      ([officers_call example_config "00000006"],
       Some {| status := 500; body := VObj [("items", VArr [])] |}).
Proof.
  assert (number_param officers_request ≠ "") as Hn by done.
  split.
  - exact (officers_projects_or_fails example_config officers_request
             upstream_officers 200 _ _ Hn eq_refl eq_refl).
  - exact (officers_projects_or_fails example_config officers_request
             upstream_items_not_array 200 _ _ Hn eq_refl eq_refl).
Defined.

(** X6. The search handler answers a successful upstream response with 500
    and [{items: []}] whenever the parsed body is [null], its [items] is
    truthy without being an array, or an element of [items] is [null]; on
    every other body it answers 200 with the projected items. *)
Theorem search_projects_or_fails (cfg : Config) (req : Request)
    (upstream : Outbound → FetchResult) (q : string) (s : Z) (text : string)
    (data : jsval) :
  or_empty_toString (query_q req) = Ok q → (3 ≤ String.length q)%nat →
  upstream (search_call cfg q) = FetchResolved s (BodyText text (Some data)) →
  r_ok s = true →
  run upstream (search cfg req) =
    ([search_call cfg q],
     Some match listed_items data with
          | Some l => {| status := 200;
                         body := VObj [("items", VArr (map projected l))] |}
          | None => {| status := 500; body := VObj [("items", VArr [])] |}
          end).
Proof.
  intros Hq Hlen Hup Hok. rewrite (search_calls cfg req q upstream Hq Hlen), Hup.
  unfold search_try. simpl. rewrite Hok. simpl.
  rewrite (list_items search_item projected data
             search_item_null search_item_projected).
  by destruct (listed_items data).
Qed.

Lemma search_projects_or_fails_witness :
  run upstream_items_not_array (search example_config example_search_request) =
    ([search_call example_config "acme"],
     Some {| status := 500; body := VObj [("items", VArr [])] |}).
Proof.
  refine (search_projects_or_fails example_config example_search_request
            upstream_items_not_array "acme" 200 _ _ eq_refl _ eq_refl eq_refl).
  simpl. lia.
Defined.

(** X7. The detail handler passes a successful upstream body through
    unchanged, whatever JSON value it is ([null] included), with
    status 200. *)
Theorem detail_passes_through (cfg : Config) (req : Request)
    (upstream : Outbound → FetchResult) (s : Z) (text : string) (data : jsval) :
  number_param req ≠ "" →
  upstream (detail_call cfg (number_param req)) =
    FetchResolved s (BodyText text (Some data)) →
  r_ok s = true →
  run upstream (detail cfg req) =
    ([detail_call cfg (number_param req)], Some {| status := 200; body := data |}).
Proof.
  intros Hn Hup Hok. rewrite (detail_calls cfg req upstream Hn), Hup.
  unfold detail_try. simpl. by rewrite Hok.
Qed.

Lemma detail_passes_through_witness :
  run upstream_null_body (detail example_config detail_request) =
    ([detail_call example_config "00000006"],
     Some {| status := 200; body := VNull |}).
Proof.
  assert (number_param detail_request ≠ "") as Hn by done.
  exact (detail_passes_through example_config detail_request upstream_null_body
           200 "null" VNull Hn eq_refl eq_refl).
Defined.

(** ** The upstream request *)

Lemma append_empty_r (s : string) : s ++ "" = s.
Proof.
  induction s as [|c r IH]; [done|].
  change (String c (r ++ "") = String c r). by rewrite IH.
Qed.

Lemma encodeURIComponent_cons (c : ascii) (r : string) :
  JsString.encodeURIComponent (String c r) =
    JsString.encodeURIComponent (String c "") ++ JsString.encodeURIComponent r.
Proof.
  cbn [JsString.encodeURIComponent]. by rewrite append_empty_r.
Qed.

Lemma string_forallb_app (p : ascii → bool) (s t : string) :
  string_forallb p (s ++ t) = string_forallb p s && string_forallb p t.
Proof.
  induction s as [|c r IH]; [done|].
  change (p c && string_forallb p (r ++ t) =
          p c && string_forallb p r && string_forallb p t).
  by rewrite IH, andb_assoc.
Qed.

Lemma encode_char_component (c : ascii) :
  string_forallb component_char (JsString.encodeURIComponent (String c "")) = true.
Proof. destruct c as [[] [] [] [] [] [] [] []]; vm_compute; reflexivity. Qed.

(** A percent-encoded component holds only unreserved characters and
    percent signs. *)
Lemma encodeURIComponent_chars (s : string) :
  string_forallb component_char (JsString.encodeURIComponent s) = true.
Proof.
  induction s as [|c r IH]; [done|].
  by rewrite encodeURIComponent_cons, string_forallb_app, encode_char_component, IH.
Qed.

Lemma contains_forallb (p : ascii → bool) (c : ascii) (s : string) :
  string_forallb p s = true → p c = false → contains c s = false.
Proof.
  intros Hall Hc. induction s as [|d r IH]; [done|]. simpl in *.
  apply andb_true_iff in Hall as [Hd Hr]. rewrite (IH Hr), orb_false_r.
  destruct (Ascii.eqb_spec d c) as [->|]; [congruence | done].
Qed.





(** ** What a client of the list endpoints can receive *)

Lemma projected_keys (l : list jsval) :
  Forall (object_with_keys search_keys) (map projected l).
Proof.
  induction l as [|x l IH]; constructor; [|done]. by eexists.
Qed.

Lemma projected_officer_keys (l : list jsval) :
  Forall (object_with_keys officer_keys) (map projected_officer l).
Proof.
  induction l as [|x l IH]; constructor; [|done]. by eexists.
Qed.

(** The answers of a list handler's [try] block under its [catch]. *)
Lemma list_try_shape (keys : list string) (f : jsval → Try jsval)
    (g : jsval → jsval) (r0 : FetchResult) (body_try : FetchResult → Try Response) :
  (∀ x, nullish x = true → f x = Thrown) →
  (∀ x, nullish x = false → f x = Ok (g x)) →
  (∀ l, Forall (object_with_keys keys) (map g l)) →
  (body_try r0 =
     let? resp := await_fetch r0 in
     if negb (r_ok (fst resp)) then
       let? text := r_text (snd resp) in Ok (ch_error (fst resp) text)
     else
       let? data := r_json (snd resp) in
       let? data_items := get_member data "items" in
       let? items := js_map (js_or data_items (VArr [])) f in
       Ok (res_json (VObj [("items", VArr items)]))) →
  let r := try_catch (body_try r0) (res_status_json 500 no_items) in
  ((status r = 200 ∨ status r = 500) ∧ item_list_body keys r)
  ∨ (∃ s text, r_ok s = false ∧ r = ch_error s text).
Proof.
  intros Hnull Hok Hkeys ->.
  assert (∀ st, (st = 200 ∨ st = 500) →
            (status (res_status_json st no_items) = 200
             ∨ status (res_status_json st no_items) = 500)
            ∧ item_list_body keys (res_status_json st no_items)) as Hempty.
  { intros st Hst. split; [done|]. exists []. by split. }
  destruct r0 as [|s b]; simpl; [left; apply Hempty; by right|].
  destruct (r_ok s) eqn:Hs; simpl.
  - destruct b as [|text [data|]]; simpl; try (left; apply Hempty; by right).
    rewrite (list_items f g data Hnull Hok).
    destruct (listed_items data) as [l|]; simpl; [|left; apply Hempty; by right].
    left. split; [by left|]. exists (map g l). by split.
  - destruct b as [|text parsed]; simpl; [left; apply Hempty; by right|].
    right. by exists s, text.
Qed.

(** X10. Whatever the upstream sends, the search and officers endpoints
    answer with one of two shapes only: status 200 or 500 with a body
    [{items: [..]}] whose elements each have exactly the four projected
    fields, or a non-success status with [{error: "CH error", detail: ..}];
    no other part of an upstream body ever reaches the client. *)
Theorem list_endpoints_body_shape (cfg : Config) (req : Request)
    (upstream : Outbound → FetchResult) (r : Response) :
  ((run upstream (search cfg req)).2 = Some r →
   ((status r = 200 ∨ status r = 500) ∧ item_list_body search_keys r)
   ∨ (∃ s text, r_ok s = false ∧ r = ch_error s text))
  ∧ ((run upstream (officers cfg req)).2 = Some r →
     ((status r = 200 ∨ status r = 500) ∧ item_list_body officer_keys r)
     ∨ (∃ s text, r_ok s = false ∧ r = ch_error s text)).
Proof.
  assert (∀ keys, (status (res_json no_items) = 200 ∨ status (res_json no_items) = 500)
                  ∧ item_list_body keys (res_json no_items)) as Hempty.
  { intros keys. split; [by left|]. exists []. by split. }
  split.
  - unfold search. destruct (or_empty_toString (query_q req)) as [q|]; [|done].
    destruct (negb (JsString.nonempty q) || (Z.of_nat (String.length q) <? 3)%Z);
      simpl; intros [= <-]; [left; apply Hempty|].
    by apply (list_try_shape search_keys search_item projected _ search_try
                search_item_null search_item_projected projected_keys).
  - unfold officers. destruct (negb (JsString.nonempty (number_param req)));
      simpl; intros [= <-]; [left; apply Hempty|].
    by apply (list_try_shape officer_keys officer_item projected_officer _ officers_try
                officer_item_null officer_item_projected projected_officer_keys).
Qed.

Lemma list_endpoints_body_shape_witness :
  (run upstream_officers (officers example_config officers_request)).2 =
    Some {| status := 200;
            body := VObj [("items", VArr [
              VObj [("name", VStr "SMITH, Jane");
                    ("appointed_on", VStr "2020-01-01");
                    ("resigned_on", VUndefined);
                    ("role", VStr "director")]])] |}
  ∧ item_list_body officer_keys
      {| status := 200;
         body := VObj [("items", VArr [
           VObj [("name", VStr "SMITH, Jane");
                 ("appointed_on", VStr "2020-01-01");
                 ("resigned_on", VUndefined);
                 ("role", VStr "director")]])] |}.
Proof.
  split; [reflexivity|].
  destruct (proj2 (list_endpoints_body_shape example_config officers_request
    upstream_officers _) eq_refl) as [[_ Hshape]|(s & text & _ & Herr)];
    [exact Hshape | discriminate Herr].
Defined.

(** ** The assembled application *)

(** X11. The application contacts the upstream only for a request that got
    past all three middlewares on a protected path: its origin was
    permitted, the rate limiter let it pass, a shared secret is configured
    and the token read from the request is exactly that secret. In
    particular an unauthenticated, rate-limited or [/health] request never
    causes an upstream call. *)
Theorem upstream_needs_all_guards (cfg : Config) (now : Z)
    (hits : gmap (option string) Entry) (req : Request)
    (upstream : Outbound → FetchResult) (h : Handler) :
  health_path_routed req = true →
  (app cfg now hits req).2 = Handled h →
  (run upstream h).1 ≠ [] →
  corsOptions_origin cfg (origin_header req) = Next
  ∧ (rate_limit now (ip req) hits).2 = Next
  ∧ path req ≠ "/health"
  ∧ SHARED_SECRET cfg ≠ ""
  ∧ auth_token cfg req = HString (SHARED_SECRET cfg).
Proof.
  intros Hrouted Happ Hcalls. unfold app in Happ.
  destruct (corsOptions_origin cfg (origin_header req)) eqn:Ho;
    [|discriminate Happ | injection Happ as <-; by destruct Hcalls].
  destruct (rate_limit now (ip req) hits) as [hits' s] eqn:Hrl. simpl in *.
  destruct s; [|discriminate Happ | injection Happ as <-; by destruct Hcalls].
  simpl in Happ. unfold authenticated in Happ.
  unfold health_path_routed in Hrouted.
  destruct (String.eqb_spec (path req) "/health") as [Hp|Hp].
  { rewrite (auth_health cfg req Hp) in Happ. simpl in Happ.
    unfold dispatch in Happ.
    destruct (route req); try discriminate Hrouted; try discriminate Happ.
    injection Happ as <-. by destruct Hcalls. }
  destruct (decide (SHARED_SECRET cfg = "")) as [Hs|Hs].
  { rewrite (auth_not_configured cfg req Hp Hs) in Happ.
    injection Happ as <-. by destruct Hcalls. }
  destruct (header_differs (auth_token cfg req) (SHARED_SECRET cfg)) eqn:Hd.
  - assert (auth_token cfg req ≠ HString (SHARED_SECRET cfg)) as Ht.
    { intros Ht%header_differs_false. congruence. }
    rewrite (auth_rejects cfg req Hp Hs Ht) in Happ.
    injection Happ as <-. by destruct Hcalls.
  - apply header_differs_false in Hd. done.
Qed.

Lemma upstream_needs_all_guards_witness :
  (run upstream_down (search example_config example_search_request)).1 ≠ []
  ∧ auth_token example_config example_search_request = HString "s3cret".
Proof.
  assert ((run upstream_down (search example_config example_search_request)).1 ≠ [])
    as Hcalls by done.
  split; [exact Hcalls|].
  exact (proj2 (proj2 (proj2 (proj2 (upstream_needs_all_guards example_config 0 ∅
    example_search_request upstream_down
    (search example_config example_search_request) eq_refl eq_refl Hcalls))))).
Defined.



(** ** The rate-limit table over any sequence of requests *)

Section Table.
Implicit Types (hits : gmap (option string) Entry) (k key : option string).
Implicit Types (e : Entry) (reqs : list (Z * option string)).

Lemma window_opened_later k reqs entry now key :
  window_opened k reqs entry → window_opened k ((now, key) :: reqs) entry.
Proof.
  intros (pre & start & post & -> & Hwin & He).
  by exists ((now, key) :: pre), start, post.
Qed.

(** The entry of a caller after any sequence of requests, from any table:
    it is the initial entry advanced by the caller's requests when these
    all fall in the initial window (or there are none), and otherwise the
    entry of the window one of the requests opened. *)
Lemma final_entry reqs : ∀ hits k,
  match hits !! k with
  | None => by_caller k reqs = 0 ∧ (rate_limit_all hits reqs).1 !! k = None
  | Some e0 =>
      in_window (ts e0) k reqs = true
      ∧ (rate_limit_all hits reqs).1 !! k =
          Some {| count := count e0 + by_caller k reqs; ts := ts e0 |}
  end
  ∨ window_opened k reqs ((rate_limit_all hits reqs).1 !! k).
Proof.
  induction reqs as [|[now key] rest IH]; intros hits k.
  - left. simpl. destruct (hits !! k) as [[c t]|]; [|done].
    simpl. by rewrite Z.add_0_r.
  - rewrite rate_limit_all_cons. cbn [fst snd by_caller in_window].
    destruct (decide (key = k)) as [->|Hne].
    + assert (∀ hits1 : gmap (option string) Entry,
                hits1 !! k = Some {| count := 1; ts := now |} →
                window_opened k ((now, k) :: rest) ((rate_limit_all hits1 rest).1 !! k))
        as Hopen.
      { intros hits1 H1. specialize (IH hits1 k). rewrite H1 in IH.
        destruct IH as [[Hwin He]|Hop]; [|by apply window_opened_later].
        exists [], now, rest. simpl in *. by rewrite He. }
      destruct (hits !! k) as [e0|] eqn:He0.
      * destruct (Z.le_gt_cases (now - ts e0) WINDOW_MS) as [Hle|Hgt].
        -- rewrite (rate_limit_same_window now k hits e0 He0 Hle). simpl.
           specialize (IH (<[k := {| count := count e0 + 1; ts := ts e0 |}]> hits) k).
           rewrite lookup_insert_eq in IH. simpl in IH.
           destruct IH as [[Hwin He]|Hop]; [|right; by apply window_opened_later].
           left. split.
           ++ rewrite Hwin, andb_true_r. by apply Z.leb_le.
           ++ rewrite He. do 2 f_equal. lia.
        -- right. rewrite (rate_limit_new_window now k hits).
           2:{ right. exists e0. split; [done | lia]. }
           apply Hopen. simpl. apply lookup_insert_eq.
      * right. rewrite (rate_limit_new_window now k hits) by (by left).
        apply Hopen. simpl. apply lookup_insert_eq.
    + specialize (IH (rate_limit now key hits).1 k).
      rewrite (rate_limit_other now key k hits Hne) in IH.
      destruct IH as [IH|Hop]; [|right; by apply window_opened_later].
      left. by destruct (hits !! k).
Qed.

(** The requests of [k] that pass, within one window of [k]. *)
Lemma window_passed reqs : ∀ hits k e,
  hits !! k = Some e → in_window (ts e) k reqs = true →
  passed k reqs (rate_limit_all hits reqs).2 =
    Z.max 0 (Z.min (MAX_REQS - count e) (by_caller k reqs)).
Proof.
  induction reqs as [|[now key] rest IH]; intros hits k e He Hwin.
  - simpl. unfold MAX_REQS. lia.
  - rewrite rate_limit_all_cons. simpl in Hwin.
    apply andb_true_iff in Hwin as [Hnow Hrest]. cbn [fst snd passed by_caller].
    pose proof (by_caller_nonneg k rest) as Hn.
    destruct (decide (key = k)) as [->|Hne].
    + apply Z.leb_le in Hnow.
      rewrite (rate_limit_same_window now k hits e He Hnow). simpl.
      rewrite (IH (<[k := {| count := count e + 1; ts := ts e |}]> hits) k
                 {| count := count e + 1; ts := ts e |});
        [|apply lookup_insert_eq | exact Hrest].
      simpl. unfold verdict, MAX_REQS in *.
      destruct (Z.gtb_spec (count e + 1) 60); lia.
    + rewrite (IH (rate_limit now key hits).1 k e);
        [lia | by rewrite rate_limit_other | exact Hrest].
Qed.

End Table.

Lemma by_caller_app (k : option string) (a b : list (Z * option string)) :
  by_caller k (a ++ b)%list = (by_caller k a + by_caller k b)%Z.
Proof.
  induction a as [|[now key] a IH]; [done|]. simpl. rewrite IH. lia.
Qed.

Lemma window_opened_counts (k : option string) (reqs : list (Z * option string))
    (entry : option Entry) :
  window_opened k reqs entry → (0 < by_caller k reqs)%Z ∧ is_Some entry.
Proof.
  intros (pre & start & post & -> & _ & ->). split; [|by eexists].
  rewrite by_caller_app. simpl. rewrite decide_True by done.
  pose proof (by_caller_nonneg k pre). pose proof (by_caller_nonneg k post). lia.
Qed.

(** X13. Starting from the empty table, after any sequence of requests of
    any callers at any times: a caller has an entry exactly if it has made
    a request; the entry's [ts] is the arrival time of one of the caller's
    requests, the caller's later requests all arrived no more than
    [WINDOW_MS] after it, and [count] is the number of the caller's
    requests from that one on. *)
Theorem table_counts_window_requests (reqs : list (Z * option string))
    (k : option string) :
  ((rate_limit_all ∅ reqs).1 !! k = None ↔ by_caller k reqs = 0)
  ∧ ∀ e, (rate_limit_all ∅ reqs).1 !! k = Some e →
      ∃ pre post,
        reqs = (pre ++ (ts e, k) :: post)%list
        ∧ in_window (ts e) k post = true
        ∧ count e = (1 + by_caller k post)%Z.
Proof.
  pose proof (final_entry reqs ∅ k) as H. rewrite lookup_empty in H.
  destruct H as [[Hzero Hnone]|Hop].
  - rewrite Hnone. split; [done | by intros e].
  - pose proof (window_opened_counts k reqs _ Hop) as [Hpos [e' He']].
    destruct Hop as (pre & start & post & Hreqs & Hwin & He).
    rewrite He. split.
    + split; [done | lia].
    + intros e [= <-]. by exists pre, post.
Qed.

Lemma table_counts_window_requests_witness :
  (rate_limit_all ∅ two_windows).1 !! Some "10.0.0.1" =
    Some {| count := 2; ts := 61000 |}
  ∧ ∃ pre post,
      two_windows = (pre ++ (61000, Some "10.0.0.1") :: post)%list
      ∧ in_window 61000 (Some "10.0.0.1") post = true
      ∧ 2 = (1 + by_caller (Some "10.0.0.1") post)%Z.
Proof.
  assert ((rate_limit_all ∅ two_windows).1 !! Some "10.0.0.1" =
            Some {| count := 2; ts := 61000 |}) as He by (vm_compute; reflexivity).
  split; [exact He|].
  exact (proj2 (table_counts_window_requests two_windows (Some "10.0.0.1"))
           {| count := 2; ts := 61000 |} He).
Defined.

(** X14. Of a caller's requests within one window, exactly the first 60
    pass the limiter, so never more than 60, however many are sent and
    whatever other callers do in between. *)
Theorem at_most_sixty_pass_per_window (hits : gmap (option string) Entry)
    (k : option string) (start : Z) (reqs : list (Z * option string)) :
  hits !! k = None ∨ (∃ e, hits !! k = Some e ∧ (start - ts e > WINDOW_MS)%Z) →
  in_window start k reqs = true →
  passed k ((start, k) :: reqs) (rate_limit_all hits ((start, k) :: reqs)).2 =
    Z.min 60 (1 + by_caller k reqs)
  ∧ (passed k ((start, k) :: reqs) (rate_limit_all hits ((start, k) :: reqs)).2 ≤ 60)%Z.
Proof.
  intros Hopen Hwin.
  rewrite rate_limit_all_cons, (rate_limit_new_window start k hits Hopen).
  cbn [fst snd passed]. rewrite decide_True by done.
  rewrite (window_passed reqs (<[k := {| count := 1; ts := start |}]> hits) k
             {| count := 1; ts := start |});
    [|apply lookup_insert_eq | exact Hwin].
  pose proof (by_caller_nonneg k reqs). simpl. unfold MAX_REQS. lia.
Qed.

Lemma at_most_sixty_pass_per_window_witness :
  by_caller caller burst_tail = 60
  ∧ passed caller ((0, caller) :: burst_tail)
      (rate_limit_all ∅ ((0, caller) :: burst_tail)).2 = 60.
Proof.
  split; [reflexivity|].
  exact (proj1 (at_most_sixty_pass_per_window ∅ caller 0 burst_tail
                  (or_introl eq_refl) eq_refl)).
Defined.

(** X15. The table never forgets a caller: no request removes an entry, a
    caller that sends nothing keeps its entry exactly as it is, however
    old, and every caller that has sent a request has an entry. *)
Theorem table_never_forgets (hits : gmap (option string) Entry)
    (reqs : list (Z * option string)) (k : option string) :
  (by_caller k reqs = 0 → (rate_limit_all hits reqs).1 !! k = hits !! k)
  ∧ (is_Some (hits !! k) → is_Some ((rate_limit_all hits reqs).1 !! k))
  ∧ ((0 < by_caller k reqs)%Z → is_Some ((rate_limit_all hits reqs).1 !! k)).
Proof.
  pose proof (final_entry reqs hits k) as [H|Hop].
  - destruct (hits !! k) as [[c t]|].
    + destruct H as [_ ->]. simpl. split; [|split]; try by eexists.
      intros ->. by rewrite Z.add_0_r.
    + destruct H as [Hzero ->]. split; [done|]. split; [done | lia].
  - apply window_opened_counts in Hop as [Hpos Hsome].
    split; [lia | by split].
Qed.

Lemma table_never_forgets_witness :
  by_caller (Some "10.9.9.9") two_windows = 0
  ∧ (rate_limit_all {[ Some "10.9.9.9" := {| count := 7; ts := -1000000 |} ]}
       two_windows).1 !! Some "10.9.9.9" = Some {| count := 7; ts := -1000000 |}.
Proof.
  split; [reflexivity|].
  exact (proj1 (table_never_forgets
    {[ Some "10.9.9.9" := {| count := 7; ts := -1000000 |} ]}
    two_windows (Some "10.9.9.9")) eq_refl).
Defined.

(** ** The search term *)

Lemma qToString_strings (l : list string) :
  qToString (QArr (map QStr l)) = Ok (JsString.join "," l).
Proof.
  cbn [qToString].
  assert ((fix go (l0 : list qval) : Try (list string) :=
             match l0 with
             | [] => Ok []
             | x :: r => let? s := qToString x in let? ss := go r in Ok (s :: ss)
             end) (map QStr l) = Ok l) as ->; [|done].
  induction l as [|s l IH]; [done|]. simpl. by rewrite IH.
Qed.

(** X16. A repeated [q] parameter ([q=a&q=b]) is searched as the values
    joined with commas: the handler treats the array exactly as it treats
    the joined string, length check and upstream call included. *)
Theorem repeated_q_is_joined (cfg : Config) (req : Request) (l : list string) :
  or_empty_toString (Some (QArr (map QStr l))) = Ok (JsString.join "," l)
  ∧ search cfg (with_query req (Some (QArr (map QStr l)))) =
    search cfg (with_query req (Some (QStr (JsString.join "," l)))).
Proof.
  assert (or_empty_toString (Some (QArr (map QStr l))) = Ok (JsString.join "," l))
    as Harr by apply qToString_strings.
  split; [exact Harr|].
  unfold search. cbn [query_q with_query]. rewrite Harr.
  assert (or_empty_toString (Some (QStr (JsString.join "," l))) =
          Ok (JsString.join "," l)) as ->; [|done].
  unfold or_empty_toString, qtruthy.
  destruct (JsString.nonempty (JsString.join "," l)) eqn:Hj; [done|].
  by apply nonempty_false in Hj as ->.
Qed.

(** X17. When the upstream is called. The search handler calls it exactly
    when [q] turns into a string of three or more characters, the officers
    and detail handlers exactly when the company number is not empty. *)
Theorem upstream_called_iff (cfg : Config) (req : Request)
    (upstream : Outbound → FetchResult) :
  ((run upstream (search cfg req)).1 ≠ [] ↔
   ∃ q, or_empty_toString (query_q req) = Ok q ∧ (3 ≤ String.length q)%nat)
  ∧ ((run upstream (officers cfg req)).1 ≠ [] ↔ number_param req ≠ "")
  ∧ ((run upstream (detail cfg req)).1 ≠ [] ↔ number_param req ≠ "").
Proof.
  split; [|split].
  - split.
    + unfold search. destruct (or_empty_toString (query_q req)) as [q|]; [|done].
      destruct (Nat.lt_ge_cases (String.length q) 3) as [Hlt|Hge].
      * by rewrite (short_length q Hlt).
      * intros _. by exists q.
    + intros (q & Hq & Hlen). by rewrite (search_calls cfg req q upstream Hq Hlen).
  - split.
    + intros Hcalls Hn. unfold officers in Hcalls. by rewrite Hn in Hcalls.
    + intros Hn. by rewrite (officers_calls cfg req upstream Hn).
  - split.
    + intros Hcalls Hn. unfold detail in Hcalls. by rewrite Hn in Hcalls.
    + intros Hn. by rewrite (detail_calls cfg req upstream Hn).
Qed.

Lemma upstream_called_iff_witness :
  (run upstream_down (search example_config three_letter_request)).1 =
    [search_call example_config "abc"]
  ∧ (run upstream_down (search example_config three_letter_request)).1 ≠ [].
Proof.
  split; [reflexivity|].
  apply (proj2 (proj1 (upstream_called_iff example_config three_letter_request
                         upstream_down))).
  exists "abc". split; [reflexivity | simpl; lia].
Defined.

(** X18. The [||] defaults at start-up: a variable set to the empty string
    counts as unset. [AUTH_HEADER] is never empty (it falls back to
    [x-ch-secret]), and [SHARED_SECRET] is empty exactly when the variable
    is unset or empty, in which case every request to a protected path is
    refused with 500. *)
Theorem env_defaults (env : gmap string string) :
  AUTH_HEADER (load_config env) ≠ ""
  ∧ (env !! "AUTH_HEADER" = None ∨ env !! "AUTH_HEADER" = Some "" →
     AUTH_HEADER (load_config env) = "x-ch-secret")
  ∧ (SHARED_SECRET (load_config env) = "" ↔
     env !! "SHARED_SECRET" = None ∨ env !! "SHARED_SECRET" = Some "")
  ∧ (env !! "SHARED_SECRET" = None ∨ env !! "SHARED_SECRET" = Some "" →
     ∀ req, path req ≠ "/health" →
       auth (load_config env) req = Respond not_configured).
Proof.
  assert (SHARED_SECRET (load_config env) = "" ↔
          env !! "SHARED_SECRET" = None ∨ env !! "SHARED_SECRET" = Some "") as Hsecret.
  { cbn [SHARED_SECRET load_config]. unfold env_or.
    destruct (env !! "SHARED_SECRET") as [s|]; [|by split; auto].
    destruct (JsString.nonempty s) eqn:Hs.
    - apply nonempty_true in Hs. split; [done|].
      intros [H|H]; [done | by injection H].
    - apply nonempty_false in Hs. subst s. split; auto. }
  split; [|split; [|split]].
  - cbn [AUTH_HEADER load_config]. unfold env_or.
    destruct (env !! "AUTH_HEADER") as [s|]; [|done].
    destruct (JsString.nonempty s) eqn:Hs; [by apply nonempty_true | done].
  - cbn [AUTH_HEADER load_config]. by intros [-> | ->].
  - exact Hsecret.
  - intros Hunset req Hp. apply auth_not_configured; [done|]. by apply Hsecret.
Qed.

Lemma env_defaults_witness :
  AUTH_HEADER (load_config {[ "SHARED_SECRET" := ""; "AUTH_HEADER" := "" ]}) =
    "x-ch-secret"
  ∧ auth (load_config {[ "SHARED_SECRET" := ""; "AUTH_HEADER" := "" ]})
      example_search_request = Respond not_configured.
Proof.
  split; [reflexivity|].
  apply (proj2 (proj2 (proj2 (env_defaults
    {[ "SHARED_SECRET" := ""; "AUTH_HEADER" := "" ]})))).
  - right. reflexivity.
  - done.
Defined.
